(** * College.cpp: the academic records registry

    A shallow embedding of the classes of [College.cpp] ([Observable],
    [Student], [Teacher], [Course], [School]) and the properties of the
    enrollment protocol, the score updates and the ranking query.

    Conventions of the embedding:
    - [float] is IEEE 754 binary32, taken from the Standard Library's
      [SpecFloat] at precision 24 and maximal exponent 128, so that NaN,
      the infinities and rounding are those of the program;
    - [int] is a [Z], [size_t] is 64 bits wide, and the conversion of an
      [int] to [size_t] in a mixed comparison is written out;
    - [std::map<string, optional<float>>] is an association list kept in
      ascending key order (the order in which the program iterates over it),
      [std::set<string>] is a [gset string];
    - objects held through [shared_ptr] live in a store and are named by
      their index in it, so that two handles to one object alias;
    - what a method writes to [cerr] and the calls it makes to
      [Observable::notify] are collected in a list of [Output]s;
    - the mutexes are not modelled: every method runs to completion. *)

From Stdlib Require Import ZArith String Ascii List Bool Lia.
From Stdlib Require Import Floats.SpecFloat.
From Stdlib Require Import Sorting.Permutation Sorting.Sorted.
From stdpp Require Import base option list gmap strings.

Local Open Scope Z_scope.

(** ** Machine numbers *)

Definition size_t_bits : Z := 64.
Definition int_bits : Z := 32.

(** [int] to [size_t], as in the usual arithmetic conversions. *)
Definition to_size_t (z : Z) : Z := z mod 2 ^ size_t_bits.

(** [size_t] to [int], keeping the low 32 bits in two's complement. *)
Definition to_int (z : Z) : Z :=
  (z + 2 ^ (int_bits - 1)) mod 2 ^ int_bits - 2 ^ (int_bits - 1).

Definition int_range (z : Z) : Prop :=
  - 2 ^ (int_bits - 1) <= z < 2 ^ (int_bits - 1).

Module Float32.
Definition prec : Z := 24.
Definition emax : Z := 128.

Definition t : Type := spec_float.

Definition add : t -> t -> t := SFadd prec emax.
Definition div : t -> t -> t := SFdiv prec emax.
Definition ltb : t -> t -> bool := SFltb.
Definition leb : t -> t -> bool := SFleb.

(** Conversion of an integer, rounding to nearest even. *)
Definition of_Z (z : Z) : t := binary_normalize prec emax z 0 false.

(** The literal [0.0f]. *)
Definition zero : t := S754_zero false.

Definition is_nan (x : t) : bool :=
  match x with S754_nan => true | _ => false end.

(** Membership in the closed interval [[lo, hi]]. *)
Definition in_interval (lo hi x : t) : bool := leb lo x && leb x hi.
End Float32.

Abbreviation float := Float32.t.

(** ** Terminal colours and the stream manipulators *)

Definition ESC : string := String "027"%char EmptyString.
Definition RESET : string := ESC +:+ "[0m".
Definition RED : string := ESC +:+ "[31m".
Definition endl : string := String "010"%char EmptyString.

(** ** std::map<string, V> *)

Module StdMap.
Section WithValue.
Context {V : Type}.

Definition t : Type := list (string * V).

Definition empty : t := [].

(** [m.find(k)], [None] standing for [m.end()]. *)
Fixpoint find (k : string) (m : t) : option V :=
  match m with
  | [] => None
  | (k', v) :: m' => if String.eqb k k' then Some v else find k m'
  end.

(** [m[k] = v]. *)
Fixpoint assign (k : string) (v : V) (m : t) : t :=
  match m with
  | [] => [(k, v)]
  | (k', v') :: m' =>
      match String.compare k k' with
      | Lt => (k, v) :: (k', v') :: m'
      | Eq => (k, v) :: m'
      | Gt => (k', v') :: assign k v m'
      end
  end.

Definition keys (m : t) : list string := map fst m.

Definition contains (k : string) (m : t) : bool :=
  match find k m with Some _ => true | None => false end.
End WithValue.
Arguments t : clear implicits.
End StdMap.

(** ** Observers *)

(** A handle to an object of the store ([shared_ptr<T>], [Observer*]). *)
Definition ptr : Type := nat.

Record ScoreEvent : Type := mkScoreEvent {
  ev_student_id : string;
  ev_course_id : string;
  ev_old_wam : option float;
  ev_new_wam : float
}.

Inductive Output : Type :=
| Notify (ev : ScoreEvent) (receivers : list ptr)
    (** one call of [Observable::notify]: [update] was called with [ev] on
        each of [receivers], in this order *)
| Cerr (text : string)
    (** one line written to [cerr] *).

Module Observable.
Record t : Type := mk { observers : list ptr }.

Definition init : t := {| observers := [] |}.

Definition addObserver (observer : ptr) (o : t) : t :=
  {| observers := observers o ++ [observer] |}.

Definition notify (student_id course_id : string) (old_wam : option float)
    (new_wam : float) (o : t) : list Output :=
  [Notify (mkScoreEvent student_id course_id old_wam new_wam) (observers o)].
End Observable.

(** ** Persons, students, teachers, courses *)

Inductive GradeLevel : Type := FRESHMAN | SOPHOMORE | JUNIOR | SENIOR.

(** What a function throws. *)
Inductive Exception : Type :=
| runtime_error (what : string).

(** The outcome of a function that may throw. *)
Inductive Result (A : Type) : Type :=
| Ok (a : A)
| Throw (e : Exception).
Arguments Ok {A} a.
Arguments Throw {A} e.

Definition stringToGradeLevel (str : string) : Result GradeLevel :=
  if String.eqb str "FRESHMAN" then Ok FRESHMAN
  else if String.eqb str "SOPHOMORE" then Ok SOPHOMORE
  else if String.eqb str "JUNIOR" then Ok JUNIOR
  else if String.eqb str "SENIOR" then Ok SENIOR
  else Throw (runtime_error ("Invalid grade level: " +:+ str)).

Definition gradeLevelToString (level : GradeLevel) : string :=
  match level with
  | FRESHMAN => "FRESHMAN"
  | SOPHOMORE => "SOPHOMORE"
  | JUNIOR => "JUNIOR"
  | SENIOR => "SENIOR"
  end.

Record Address : Type := mkAddress {
  street : string;
  city : string;
  state : string;
  zip_code : string
}.

Module Person.
Record t : Type := mk {
  id : string;
  name : string;
  email : string;
  address : Address;
  created_at : Z
}.
End Person.

Module Student.
Record t : Type := mk {
  person : Person.t;
  grade_level : GradeLevel;
  courses : StdMap.t (option float);
  observable : Observable.t
}.

(** The constructor; [now] is the reading of [system_clock::now()]. *)
Definition new (id name email : string) (address : Address)
    (grade_level : GradeLevel) (now : Z) : t :=
  {| person := Person.mk id name email address now;
     grade_level := grade_level;
     courses := StdMap.empty;
     observable := Observable.init |}.

Definition getId (s : t) : string := Person.id (person s).
Definition getName (s : t) : string := Person.name (person s).
Definition getCourses (s : t) : StdMap.t (option float) := courses s.
Definition getGradeLevel (s : t) : GradeLevel := grade_level s.

Definition set_courses (m : StdMap.t (option float)) (s : t) : t :=
  {| person := person s; grade_level := grade_level s;
     courses := m; observable := observable s |}.

Definition enroll (course_id : string) (s : t) : t * list Output :=
  match StdMap.find course_id (courses s) with
  | None =>
      (set_courses (StdMap.assign course_id None (courses s)) s,
       Observable.notify (getId s) course_id None Float32.zero (observable s))
  | Some _ => (s, [])
  end.

Definition invalid_wam_message : string :=
  RED +:+ "Invalid WAM score. Must be between 0 and 100." +:+ RESET +:+ endl.

Definition updateWAM (course_id : string) (wam : float) (s : t)
    : t * list Output :=
  if Float32.ltb wam (Float32.of_Z 0) || Float32.ltb (Float32.of_Z 100) wam
  then (s, [Cerr invalid_wam_message])
  else
    match StdMap.find course_id (courses s) with
    | Some old_wam =>
        (set_courses (StdMap.assign course_id (Some wam) (courses s)) s,
         Observable.notify (getId s) course_id old_wam wam (observable s))
    | None => (s, [])
    end.

(** The loop of [overallWAM]: the scores that are present, pushed to the
    back of [wams] in the iteration order of the map. *)
Definition collect_wams (m : StdMap.t (option float)) : list float :=
  fold_left (fun wams course =>
               match snd course with
               | Some wam => wams ++ [wam]
               | None => wams
               end) m [].

(** [accumulate(first, last, init)]. *)
Definition accumulate (wams : list float) (init : float) : float :=
  fold_left Float32.add wams init.

Definition overallWAM (s : t) : float :=
  let wams := collect_wams (courses s) in
  if bool_decide (wams = []) then Float32.zero
  else Float32.div (accumulate wams Float32.zero)
                   (Float32.of_Z (Z.of_nat (length wams))).

Definition addObserver (observer : ptr) (s : t) : t :=
  {| person := person s; grade_level := grade_level s;
     courses := courses s;
     observable := Observable.addObserver observer (observable s) |}.
End Student.

Module Teacher.
Record t : Type := mk {
  person : Person.t;
  department : string;
  specialization : string;
  assigned_courses : gset string
}.

Definition new (id name email : string) (address : Address)
    (department specialization : string) (now : Z) : t :=
  {| person := Person.mk id name email address now;
     department := department;
     specialization := specialization;
     assigned_courses := ∅ |}.

Definition getId (x : t) : string := Person.id (person x).

Definition assignCourse (course_id : string) (x : t) : t :=
  {| person := person x; department := department x;
     specialization := specialization x;
     assigned_courses := {[course_id]} ∪ assigned_courses x |}.

Definition getDepartment (x : t) : string := department x.
Definition getSpecialization (x : t) : string := specialization x.

(** [assigned_courses.size()], returned as an [int]. *)
Definition courseLoad (x : t) : Z :=
  to_int (Z.of_nat (size (assigned_courses x))).
End Teacher.

Module Course.
Record t : Type := mk {
  id : string;
  name : string;
  credits : Z;
  capacity : Z;
  enrolled_students : gset string;
  prerequisites : gset string
}.

Definition default_capacity : Z := 30.

Definition new (id name : string) (credits capacity : Z) : t :=
  {| id := id; name := name; credits := credits; capacity := capacity;
     enrolled_students := ∅; prerequisites := ∅ |}.

Definition getId (c : t) : string := id c.
Definition getCapacity (c : t) : Z := capacity c.
Definition getEnrolledCount (c : t) : Z :=
  to_int (Z.of_nat (size (enrolled_students c))).

Definition addPrerequisite (course_id : string) (c : t) : t :=
  {| id := id c; name := name c; credits := credits c;
     capacity := capacity c; enrolled_students := enrolled_students c;
     prerequisites := {[course_id]} ∪ prerequisites c |}.

(** [enrolled_students.size() < capacity] compares a [size_t] with an
    [int]: the capacity is converted to [size_t] first. *)
Definition enrollStudent (student_id : string) (c : t) : bool * t :=
  if Z.of_nat (size (enrolled_students c)) <? to_size_t (capacity c)
  then (true,
        {| id := id c; name := name c; credits := credits c;
           capacity := capacity c;
           enrolled_students := {[student_id]} ∪ enrolled_students c;
           prerequisites := prerequisites c |})
  else (false, c).

(** [capacity - enrolled_students.size()]: the subtraction is done in
    [size_t], and its result is returned as an [int]. *)
Definition availableSeats (c : t) : Z :=
  to_int ((to_size_t (capacity c) - Z.of_nat (size (enrolled_students c)))
          mod 2 ^ size_t_bits).
End Course.

(** ** The store of shared objects *)

Record Heap : Type := mkHeap {
  student_objs : list Student.t;
  teacher_objs : list Teacher.t;
  course_objs : list Course.t
}.

Definition empty_heap : Heap := mkHeap [] [] [].

Definition set_student (p : ptr) (s : Student.t) (h : Heap) : Heap :=
  mkHeap (<[p := s]> (student_objs h)) (teacher_objs h) (course_objs h).

Definition set_course (p : ptr) (c : Course.t) (h : Heap) : Heap :=
  mkHeap (student_objs h) (teacher_objs h) (<[p := c]> (course_objs h)).

(** [find_if] over a vector of handles, with a predicate on the object a
    handle points to. The outer [None] is the dereference of a handle that
    points to no object; [Some None] is the [end()] iterator. *)
Fixpoint find_if {A : Type} (objs : list A) (pred : A -> bool)
    (v : list ptr) : option (option ptr) :=
  match v with
  | [] => Some None
  | p :: v' =>
      a ← objs !! p;
      if pred a then Some (Some p) else find_if objs pred v'
  end.

(** The contract of [std::sort] for a comparator [comp] on a range [l]:
    when [comp] is a strict weak ordering of the elements, the result is a
    permutation of the range in which no element is ordered before one that
    precedes it. The order of equivalent elements is not specified. *)
Record strict_weak_order {A : Type} (comp : A -> A -> bool) (l : list A)
    : Prop := {
  swo_irrefl : forall a, In a l -> comp a a = false;
  swo_trans : forall a b c, In a l -> In b l -> In c l ->
      comp a b = true -> comp b c = true -> comp a c = true;
  swo_equiv_trans : forall a b c, In a l -> In b l -> In c l ->
      comp a b = false -> comp b a = false ->
      comp b c = false -> comp c b = false ->
      comp a c = false /\ comp c a = false
}.

Definition std_sort_contract {A : Type}
    (sort : (A -> A -> bool) -> list A -> list A) : Prop :=
  forall comp l, strict_weak_order comp l ->
    Permutation l (sort comp l) /\
    StronglySorted (fun a b => comp b a = false) (sort comp l).

Definition CYAN : string := ESC +:+ "[36m".
Definition MAGENTA : string := ESC +:+ "[35m".
Definition BOLD : string := ESC +:+ "[1m".

(** A line written to [cout], or an effect of a method that was called. *)
Inductive Printed : Type :=
| Cout (text : string)
| Caused (o : Output).

Module School.
Record t : Type := mk {
  name : string;
  students : list ptr;
  teachers : list ptr;
  courses : list ptr
}.

Definition new (name : string) : t := mk name [] [] [].

Definition addStudent (student : ptr) (sc : t) : t :=
  {| name := name sc; students := students sc ++ [student];
     teachers := teachers sc; courses := courses sc |}.

Definition addTeacher (teacher : ptr) (sc : t) : t :=
  {| name := name sc; students := students sc;
     teachers := teachers sc ++ [teacher]; courses := courses sc |}.

Definition addCourse (course : ptr) (sc : t) : t :=
  {| name := name sc; students := students sc;
     teachers := teachers sc; courses := courses sc ++ [course] |}.

Definition not_found_message : string :=
  RED +:+ "Student or course not found!" +:+ RESET +:+ endl.

Definition full_message (course_id : string) : string :=
  RED +:+ "Course " +:+ course_id +:+ " is full!" +:+ RESET +:+ endl.

Definition enrollStudentInCourse (student_id course_id : string)
    (sc : t) (h : Heap) : option (bool * Heap * list Output) :=
  student_it ← find_if (student_objs h)
      (fun s => String.eqb (Student.getId s) student_id) (students sc);
  course_it ← find_if (course_objs h)
      (fun c => String.eqb (Course.getId c) course_id) (courses sc);
  match student_it, course_it with
  | Some ps, Some pc =>
      c ← course_objs h !! pc;
      let '(enrolled, c') := Course.enrollStudent student_id c in
      let h := set_course pc c' h in
      if enrolled then
        s ← student_objs h !! ps;
        let '(s', out) := Student.enroll course_id s in
        Some (true, set_student ps s' h, out)
      else Some (false, h, [Cerr (full_message course_id)])
  | _, _ => Some (false, h, [Cerr not_found_message])
  end.

(** [stats[key]++] on a [map<string, int>]: a key that is absent is first
    inserted with the value 0. [None] is the overflow of the [int]. *)
Definition increment (key : string) (stats : StdMap.t Z)
    : option (StdMap.t Z) :=
  let count := default 0 (StdMap.find key stats) in
  if count =? 2 ^ (int_bits - 1) - 1 then None
  else Some (StdMap.assign key (count + 1) stats).

Fixpoint count_departments (h : Heap) (teachers : list ptr)
    (stats : StdMap.t Z) : option (StdMap.t Z) :=
  match teachers with
  | [] => Some stats
  | teacher :: rest =>
      x ← teacher_objs h !! teacher;
      stats' ← increment (Teacher.getDepartment x) stats;
      count_departments h rest stats'
  end.

Definition getDepartmentStats (sc : t) (h : Heap) : option (StdMap.t Z) :=
  count_departments h (teachers sc) StdMap.empty.

Definition performer : Type := string * float.

(** The lambda passed to [sort]: [a.second > b.second]. *)
Definition by_wam_descending (a b : performer) : bool :=
  Float32.ltb (snd b) (snd a).

(** The loop that fills [performers]. *)
Definition collect_performers (sc : t) (h : Heap) : option (list performer) :=
  mapM (fun p => s ← student_objs h !! p;
                 Some (Student.getName s, Student.overallWAM s))
       (students sc).

(** [getTopPerformers], for a [sort] that stands for [std::sort]. The
    comparison [n > performers.size()] converts [n] to [size_t]; the
    assignment converts the size back to [int]. [None] is undefined
    behaviour: a dangling handle, or an iterator before [begin()]. *)
Definition getTopPerformers
    (sort : (performer -> performer -> bool) -> list performer -> list performer)
    (n : Z) (sc : t) (h : Heap) : option (list performer) :=
  performers ← collect_performers sc h;
  let performers := sort by_wam_descending performers in
  let n := if to_size_t n >? Z.of_nat (length performers)
           then to_int (Z.of_nat (length performers)) else n in
  if n <? 0 then None else Some (take (Z.to_nat n) performers).

(** ** School::simulateWAMUpdates

    The method draws a score for every course of every registered student
    and stores it with [updateWAM]. [draw k] is the [k]-th value of
    [dis(gen)] as converted to [float], and [fixed1] is the text that
    [fixed << setprecision(1)] gives for a [float]. The method takes no
    lock; the pauses of [sleep_for] are not modelled. *)

Section Simulation.
Variable fixed1 : float -> string.
Variable draw : nat -> float.

Definition updated_message (name course_id : string) (new_wam : float)
    : string :=
  CYAN +:+ "Updated " +:+ name +:+ "'s " +:+ course_id +:+ " to "
    +:+ fixed1 new_wam +:+ RESET +:+ endl.

(** The inner loop, over the courses of one student; [k] draws have been
    made before it. *)
Fixpoint update_each (course_ids : list string) (k : nat) (s : Student.t)
    : Student.t * list Printed * nat :=
  match course_ids with
  | [] => (s, [], k)
  | course_id :: rest =>
      let new_wam := draw k in
      let '(s1, out) := Student.updateWAM course_id new_wam s in
      let line :=
        Cout (updated_message (Student.getName s1) course_id new_wam) in
      let '(s2, out2, k2) := update_each rest (S k) s1 in
      (s2, map Caused out ++ line :: out2, k2)
  end.

(** The outer loop, over the handles of the school. *)
Fixpoint simulate_loop (students : list ptr) (k : nat) (h : Heap)
    : option (Heap * list Printed * nat) :=
  match students with
  | [] => Some (h, [], k)
  | p :: rest =>
      s ← student_objs h !! p;
      let '(s', out, k') :=
        update_each (StdMap.keys (Student.courses s)) k s in
      '(h', out', k'') ← simulate_loop rest k' (set_student p s' h);
      Some (h', out ++ out', k'')
  end.

Definition simulating_message : string :=
  BOLD +:+ MAGENTA +:+ endl +:+ "Simulating WAM updates..." +:+ RESET
    +:+ endl.

Definition simulateWAMUpdates (sc : t) (h : Heap)
    : option (Heap * list Printed) :=
  '(h', out, _) ← simulate_loop (students sc) 0 h;
  Some (h', Cout simulating_message :: out).
End Simulation.
End School.

(** ** Client programs

    A world is the store together with the one [School] object. A client
    constructs objects with [make_shared], hands them to the school and
    calls its methods, and it may call [updateWAM] and [addObserver] on a
    student it holds. A handle a client passes was returned by an earlier
    [make_shared]: a step whose handle points to no object is not taken. *)

Record World : Type := mkWorld {
  heap : Heap;
  school : School.t
}.

Definition init_world (name : string) : World :=
  mkWorld empty_heap (School.new name).

Inductive Op : Type :=
| MakeStudent (id name email : string) (address : Address)
    (grade_level : GradeLevel) (now : Z)
| MakeTeacher (id name email : string) (address : Address)
    (department specialization : string) (now : Z)
| MakeCourse (id name : string) (credits capacity : Z)
| AddStudent (student : ptr)
| AddTeacher (teacher : ptr)
| AddCourse (course : ptr)
| EnrollStudentInCourse (student_id course_id : string)
| UpdateWAM (student : ptr) (course_id : string) (wam : float)
| AddObserver (student : ptr) (observer : ptr).

Definition step (op : Op) (w : World) : option (World * list Output) :=
  let h := heap w in
  let sc := school w in
  match op with
  | MakeStudent id name email address grade_level now =>
      let s := Student.new id name email address grade_level now in
      Some (mkWorld (mkHeap (student_objs h ++ [s]) (teacher_objs h)
                            (course_objs h)) sc, [])
  | MakeTeacher id name email address department specialization now =>
      let x := Teacher.new id name email address department specialization
                 now in
      Some (mkWorld (mkHeap (student_objs h) (teacher_objs h ++ [x])
                            (course_objs h)) sc, [])
  | MakeCourse id name credits capacity =>
      let c := Course.new id name credits capacity in
      Some (mkWorld (mkHeap (student_objs h) (teacher_objs h)
                            (course_objs h ++ [c])) sc, [])
  | AddStudent student =>
      _ ← student_objs h !! student;
      Some (mkWorld h (School.addStudent student sc), [])
  | AddTeacher teacher =>
      _ ← teacher_objs h !! teacher;
      Some (mkWorld h (School.addTeacher teacher sc), [])
  | AddCourse course =>
      _ ← course_objs h !! course;
      Some (mkWorld h (School.addCourse course sc), [])
  | EnrollStudentInCourse student_id course_id =>
      '(_, h', out) ← School.enrollStudentInCourse student_id course_id sc h;
      Some (mkWorld h' sc, out)
  | UpdateWAM student course_id wam =>
      s ← student_objs h !! student;
      let '(s', out) := Student.updateWAM course_id wam s in
      Some (mkWorld (set_student student s' h) sc, out)
  | AddObserver student observer =>
      s ← student_objs h !! student;
      Some (mkWorld (set_student student (Student.addObserver observer s) h)
                    sc, [])
  end.

Fixpoint run (ops : list Op) (w : World) : option (World * list Output) :=
  match ops with
  | [] => Some (w, [])
  | op :: ops' =>
      '(w', out) ← step op w;
      '(w'', out') ← run ops' w';
      Some (w'', out ++ out')
  end.

(** ** Properties of students and worlds *)

(** The scores that are present in the enrollment map, in key order. *)
Definition present_scores (s : Student.t) : list float :=
  omap snd (Student.courses s).


(** The score range [[0, 100]] of the specification. *)
Definition valid_score (wam : float) : bool :=
  Float32.in_interval (Float32.of_Z 0) (Float32.of_Z 100) wam.

(** Every handle the school holds points to an object. *)
Definition wf (h : Heap) (sc : School.t) : Prop :=
  (forall p, p ∈ School.students sc -> is_Some (student_objs h !! p)) /\
  (forall p, p ∈ School.teachers sc -> is_Some (teacher_objs h !! p)) /\
  (forall p, p ∈ School.courses sc -> is_Some (course_objs h !! p)).

(** [s] is the student object behind the registered handle [p]. *)
Definition student_at (h : Heap) (sc : School.t) (p : ptr) (s : Student.t)
    : Prop :=
  p ∈ School.students sc /\ student_objs h !! p = Some s.

Definition course_at (h : Heap) (sc : School.t) (p : ptr) (c : Course.t)
    : Prop :=
  p ∈ School.courses sc /\ course_objs h !! p = Some c.

(** The handle the school resolves an id to: the first registered object
    that carries the id. *)
Definition resolve_student (h : Heap) (sc : School.t) (student_id : string)
    : option (option ptr) :=
  find_if (student_objs h)
    (fun s => String.eqb (Student.getId s) student_id) (School.students sc).

Definition resolve_course (h : Heap) (sc : School.t) (course_id : string)
    : option (option ptr) :=
  find_if (course_objs h)
    (fun c => String.eqb (Course.getId c) course_id) (School.courses sc).

(** No registered student, respectively course, carries the id. *)
Definition unknown_student (h : Heap) (sc : School.t) (student_id : string)
    : Prop :=
  forall p s, student_at h sc p s -> Student.getId s <> student_id.

Definition unknown_course (h : Heap) (sc : School.t) (course_id : string)
    : Prop :=
  forall p c, course_at h sc p c -> Course.getId c <> course_id.

(** Mutual consistency of the two sides of the enrollment links. *)
Definition mutually_consistent (h : Heap) (sc : School.t) : Prop :=
  forall ps s pc c, student_at h sc ps s -> course_at h sc pc c ->
    (Course.getId c ∈ StdMap.keys (Student.courses s) <->
     Student.getId s ∈ Course.enrolled_students c).

(** Ids are unique within their kind: two registered handles whose objects
    carry the same id are the same handle. *)
Definition unique_ids (h : Heap) (sc : School.t) : Prop :=
  (forall p1 s1 p2 s2, student_at h sc p1 s1 -> student_at h sc p2 s2 ->
     Student.getId s1 = Student.getId s2 -> p1 = p2) /\
  (forall p1 c1 p2 c2, course_at h sc p1 c1 -> course_at h sc p2 c2 ->
     Course.getId c1 = Course.getId c2 -> p1 = p2).

(** Every enrollment link has its other side on some registered object,
    and objects that are not registered carry no link. *)
Record linked (h : Heap) (sc : School.t) : Prop := {
  linked_wf : wf h sc;
  linked_fresh_student : forall p s,
    student_objs h !! p = Some s -> p ∉ School.students sc ->
    Student.courses s = [];
  linked_fresh_course : forall p c,
    course_objs h !! p = Some c -> p ∉ School.courses sc ->
    Course.enrolled_students c = ∅;
  linked_course_side : forall pc c student_id,
    course_at h sc pc c -> student_id ∈ Course.enrolled_students c ->
    exists ps s, student_at h sc ps s /\ Student.getId s = student_id /\
                 Course.getId c ∈ StdMap.keys (Student.courses s);
  linked_student_side : forall ps s course_id,
    student_at h sc ps s -> course_id ∈ StdMap.keys (Student.courses s) ->
    exists pc c, course_at h sc pc c /\ Course.getId c = course_id /\
                 Student.getId s ∈ Course.enrolled_students c
}.

(** The keys of a map are strictly ascending. *)
Definition ascending_keys {V : Type} (m : StdMap.t V) : Prop :=
  StronglySorted (fun k1 k2 => String.compare k1 k2 = Lt) (StdMap.keys m).

(** A stored score is one that the guard of [updateWAM] lets pass. *)
Definition guard_passed (wam : float) : Prop :=
  Float32.ltb wam (Float32.of_Z 0) = false /\
  Float32.ltb (Float32.of_Z 100) wam = false.

Definition scores_guarded (s : Student.t) : Prop :=
  forall k wam, (k, Some wam) ∈ Student.courses s -> guard_passed wam.

(** The teachers of a department among a list of teachers. *)
Definition in_department (department : string) (xs : list Teacher.t)
    : list Teacher.t :=
  filter (fun x => Teacher.getDepartment x = department) xs.

(** The capacity bound on the courses of the store. *)
Definition within_capacity (h : Heap) : Prop :=
  forall p c, course_objs h !! p = Some c ->
    Z.of_nat (size (Course.enrolled_students c)) <= Course.capacity c.

(** The capacity bound on the courses whose capacity is not negative. *)
Definition within_nonneg_capacity (h : Heap) : Prop :=
  forall p c, course_objs h !! p = Some c ->
    0 <= Course.capacity c ->
    Z.of_nat (size (Course.enrolled_students c)) <= Course.capacity c.

(** The loop of [main] that enrolls a list of students in one course; the
    results of the calls are collected. *)
Fixpoint enroll_each (student_ids : list string) (course_id : string)
    (sc : School.t) (h : Heap) : option (list bool * Heap * list Output) :=
  match student_ids with
  | [] => Some ([], h, [])
  | student_id :: rest =>
      '(b, h', out) ← School.enrollStudentInCourse student_id course_id sc h;
      '(bs, h'', out') ← enroll_each rest course_id sc h';
      Some (b :: bs, h'', out ++ out')
  end.

(** ** std::sort

    The library routine is not part of the repository. What theorems
    assume of it is the contract above. The model below follows the
    routine of GNU libstdc++ (bits/stl_algo.h and bits/stl_heap.h, release
    12), the library the program is built with: an introsort that
    partitions around a median of three while a range has more than 16
    elements, falls back to a heap sort when the depth limit is used up,
    and finishes with an insertion sort.

    A vector is a list, an iterator an offset from [begin()]. The result
    is [None] where the routine reads or writes outside the vector, which
    it can do only for a comparison that is no strict weak ordering. *)

(** [std::__insertion_sort], the routine that [std::sort] runs on a range
    of at most 16 elements. The test against the first element comes
    before the loop of [__unguarded_linear_insert], which therefore stops
    at the first element at the latest. *)
Section InsertionSort.
Context {A : Type} (comp : A -> A -> bool).

(** [__unguarded_linear_insert]: [val] moves towards the front past every
    element it is ordered before. [before] is the range in front of [val],
    nearest element first. *)
Fixpoint linear_insert (val : A) (before : list A) : list A :=
  match before with
  | [] => [val]
  | next :: before' =>
      if comp val next then next :: linear_insert val before'
      else val :: before
  end.

Definition insert_step (before : list A) (val : A) : list A :=
  match last before with
  | Some first =>
      if comp val first then before ++ [val] else linear_insert val before
  | None => [val]
  end.

Definition insertion_sort (l : list A) : list A :=
  match l with
  | [] => []
  | first :: rest => rev (fold_left insert_step rest [first])
  end.
End InsertionSort.

Module Libstdcxx.
Section StdSort.
Context {A : Type} (comp : A -> A -> bool).

Definition S_threshold : Z := 16.

Definition load (v : list A) (i : Z) : option A :=
  if i <? 0 then None else v !! Z.to_nat i.

Definition store (v : list A) (i : Z) (x : A) : option (list A) :=
  if (0 <=? i) && (i <? Z.of_nat (length v))
  then Some (<[Z.to_nat i := x]> v) else None.

Definition comp_iter (v : list A) (a b : Z) : option bool :=
  x ← load v a; y ← load v b; Some (comp x y).

Definition iter_swap (a b : Z) (v : list A) : option (list A) :=
  x ← load v a; y ← load v b; v ← store v a y; store v b x.

Definition move_median_to_first (result a b c : Z) (v : list A)
    : option (list A) :=
  ab ← comp_iter v a b;
  if (ab : bool) then
    bc ← comp_iter v b c;
    if (bc : bool) then iter_swap result b v
    else
      ac ← comp_iter v a c;
      if (ac : bool) then iter_swap result c v else iter_swap result a v
  else
    ac ← comp_iter v a c;
    if (ac : bool) then iter_swap result a v
    else
      bc ← comp_iter v b c;
      if (bc : bool) then iter_swap result c v else iter_swap result b v.

(** [while (comp(first, pivot)) ++first;] *)
Fixpoint advance (fuel : nat) (first pivot : Z) (v : list A) : option Z :=
  match fuel with
  | O => None
  | S fuel =>
      b ← comp_iter v first pivot;
      if (b : bool) then advance fuel (first + 1) pivot v else Some first
  end.

(** [while (comp(pivot, last)) --last;] *)
Fixpoint retreat (fuel : nat) (last pivot : Z) (v : list A) : option Z :=
  match fuel with
  | O => None
  | S fuel =>
      b ← comp_iter v pivot last;
      if (b : bool) then retreat fuel (last - 1) pivot v else Some last
  end.

Fixpoint unguarded_partition (fuel : nat) (first last pivot : Z)
    (v : list A) : option (Z * list A) :=
  match fuel with
  | O => None
  | S fuel =>
      first ← advance (S (length v)) first pivot v;
      let last := last - 1 in
      last ← retreat (S (length v)) last pivot v;
      if negb (first <? last) then Some (first, v)
      else
        v ← iter_swap first last v;
        unguarded_partition fuel (first + 1) last pivot v
  end.

Definition unguarded_partition_pivot (first last : Z) (v : list A)
    : option (Z * list A) :=
  let mid := first + (last - first) ÷ 2 in
  v ← move_median_to_first first (first + 1) mid (last - 1) v;
  unguarded_partition (S (length v)) (first + 1) last first v.

(** stl_heap.h *)
Fixpoint push_heap (fuel : nat) (first holeIndex topIndex : Z) (value : A)
    (v : list A) : option (list A) :=
  match fuel with
  | O => None
  | S fuel =>
      let parent := (holeIndex - 1) ÷ 2 in
      if topIndex <? holeIndex then
        p ← load v (first + parent);
        if comp p value then
          v ← store v (first + holeIndex) p;
          push_heap fuel first parent topIndex value v
        else store v (first + holeIndex) value
      else store v (first + holeIndex) value
  end.

Fixpoint adjust_heap_loop (fuel : nat) (first holeIndex secondChild len : Z)
    (v : list A) : option (Z * Z * list A) :=
  match fuel with
  | O => None
  | S fuel =>
      if secondChild <? (len - 1) ÷ 2 then
        let secondChild := 2 * (secondChild + 1) in
        b ← comp_iter v (first + secondChild) (first + (secondChild - 1));
        let secondChild := if (b : bool) then secondChild - 1 else secondChild in
        x ← load v (first + secondChild);
        v ← store v (first + holeIndex) x;
        adjust_heap_loop fuel first secondChild secondChild len v
      else Some (holeIndex, secondChild, v)
  end.

Definition adjust_heap (first holeIndex len : Z) (value : A) (v : list A)
    : option (list A) :=
  let topIndex := holeIndex in
  '(holeIndex, secondChild, v) ←
    adjust_heap_loop (S (length v)) first holeIndex holeIndex len v;
  '(holeIndex, v) ←
    (if Z.even len && (secondChild =? (len - 2) ÷ 2) then
       let secondChild := 2 * (secondChild + 1) in
       x ← load v (first + (secondChild - 1));
       v ← store v (first + holeIndex) x;
       Some (secondChild - 1, v)
     else Some (holeIndex, v));
  push_heap (S (length v)) first holeIndex topIndex value v.

Definition pop_heap (first last result : Z) (v : list A) : option (list A) :=
  value ← load v result;
  x ← load v first;
  v ← store v result x;
  adjust_heap first 0 (last - first) value v.

Fixpoint make_heap_loop (fuel : nat) (first parent len : Z) (v : list A)
    : option (list A) :=
  match fuel with
  | O => None
  | S fuel =>
      value ← load v (first + parent);
      v ← adjust_heap first parent len value v;
      if parent =? 0 then Some v
      else make_heap_loop fuel first (parent - 1) len v
  end.

Definition make_heap (first last : Z) (v : list A) : option (list A) :=
  if last - first <? 2 then Some v
  else
    let len := last - first in
    make_heap_loop (S (length v)) first ((len - 2) ÷ 2) len v.

(** [for (i = middle; i < last; ++i) if (comp(i, first)) pop_heap(...)] *)
Fixpoint heap_select_loop (fuel : nat) (first middle i last : Z)
    (v : list A) : option (list A) :=
  match fuel with
  | O => None
  | S fuel =>
      if i <? last then
        b ← comp_iter v i first;
        v ← (if (b : bool) then pop_heap first middle i v else Some v);
        heap_select_loop fuel first middle (i + 1) last v
      else Some v
  end.

Definition heap_select (first middle last : Z) (v : list A)
    : option (list A) :=
  v ← make_heap first middle v;
  heap_select_loop (S (length v)) first middle middle last v.

Fixpoint sort_heap (fuel : nat) (first last : Z) (v : list A)
    : option (list A) :=
  match fuel with
  | O => None
  | S fuel =>
      if 1 <? last - first then
        let last := last - 1 in
        v ← pop_heap first last last v;
        sort_heap fuel first last v
      else Some v
  end.

Definition partial_sort (first middle last : Z) (v : list A)
    : option (list A) :=
  v ← heap_select first middle last v;
  sort_heap (S (length v)) first middle v.

Fixpoint introsort_loop (depth_limit : nat) (first last : Z) (v : list A)
    : option (list A) :=
  if S_threshold <? last - first then
    match depth_limit with
    | O => partial_sort first last last v
    | S depth_limit =>
        '(cut, v) ← unguarded_partition_pivot first last v;
        v ← introsort_loop depth_limit cut last v;
        introsort_loop depth_limit first cut v
    end
  else Some v.

(** [__unguarded_linear_insert] without a test against the first element
    in front of it: a value that is ordered before every element of the
    range makes the loop read in front of the range. *)
Fixpoint unguarded_linear_insert (val : A) (before : list A)
    : option (list A) :=
  match before with
  | [] => None
  | next :: before' =>
      if comp val next then
        (next ::.) <$> unguarded_linear_insert val before'
      else Some (val :: before)
  end.

Fixpoint unguarded_insertion_sort (before rest : list A)
    : option (list A) :=
  match rest with
  | [] => Some (rev before)
  | val :: rest =>
      before ← unguarded_linear_insert val before;
      unguarded_insertion_sort before rest
  end.

Definition final_insertion_sort (v : list A) : option (list A) :=
  if S_threshold <? Z.of_nat (length v) then
    unguarded_insertion_sort
      (rev (insertion_sort comp (take (Z.to_nat S_threshold) v)))
      (drop (Z.to_nat S_threshold) v)
  else Some (insertion_sort comp v).

(** [std::__sort(first, last, comp)] on the whole of a vector. *)
Definition sort (v : list A) : option (list A) :=
  let first := 0 in
  let last := Z.of_nat (length v) in
  if first =? last then Some v
  else
    v ← introsort_loop (Z.to_nat (Z.log2 (last - first) * 2)) first last v;
    final_insertion_sort v.
End StdSort.
End Libstdcxx.

(** [std::sort(v.begin(), v.end(), comp)], where it is defined. *)
Definition std_sort {A : Type} (comp : A -> A -> bool) (l : list A)
    : list A :=
  default l (Libstdcxx.sort comp l).

(** In the course of the insertion sort the range in front of the current
    element is kept with its nearest element first: sorted, no element of
    this list is ordered before one that follows it. *)
Definition behind {A : Type} (comp : A -> A -> bool) (a b : A) : Prop :=
  comp a b = false.


(** What a call of [enrollStudentInCourse] can do to the store: nothing, or
    add the student id to the resolved course and the course id to the
    resolved student. *)
Inductive enroll_effect (student_id course_id : string) (sc : School.t)
    (h : Heap) : bool -> Heap -> list Output -> Prop :=
| effect_not_found :
    unknown_student h sc student_id \/ unknown_course h sc course_id ->
    enroll_effect student_id course_id sc h false h
      [Cerr School.not_found_message]
| effect_full ps pc s c :
    resolve_student h sc student_id = Some (Some ps) ->
    resolve_course h sc course_id = Some (Some pc) ->
    student_at h sc ps s -> course_at h sc pc c ->
    to_size_t (Course.capacity c)
      <= Z.of_nat (size (Course.enrolled_students c)) ->
    enroll_effect student_id course_id sc h false h
      [Cerr (School.full_message course_id)]
| effect_enrolled ps pc s c s' c' out :
    resolve_student h sc student_id = Some (Some ps) ->
    resolve_course h sc course_id = Some (Some pc) ->
    student_at h sc ps s -> course_at h sc pc c ->
    Student.getId s = student_id -> Course.getId c = course_id ->
    Z.of_nat (size (Course.enrolled_students c))
      < to_size_t (Course.capacity c) ->
    Student.person s' = Student.person s ->
    (forall k, k ∈ StdMap.keys (Student.courses s') <->
               k = course_id \/ k ∈ StdMap.keys (Student.courses s)) ->
    Course.id c' = Course.id c ->
    Course.capacity c' = Course.capacity c ->
    Course.enrolled_students c' = {[student_id]} ∪ Course.enrolled_students c ->
    enroll_effect student_id course_id sc h true
      (mkHeap (<[ps := s']> (student_objs h)) (teacher_objs h)
              (<[pc := c']> (course_objs h)))
      out.

(** ** Example data *)

Definition no_address : Address := mkAddress "" "" "" "".

(** Student [S001], enrolled in [CS101] and [CS201], no score yet. *)
Definition student_S001 : Student.t :=
  Student.set_courses [("CS101"%string, None); ("CS201"%string, None)]
    (Student.new "S001" "Ann" "ann@example.org" no_address FRESHMAN 0).

(** The same student after a score of 80 in [CS101]. *)
Definition student_S001_scored : Student.t :=
  fst (Student.updateWAM "CS101" (Float32.of_Z 80) student_S001).

(** A store with the fresh student [S001] and the fresh course [CS101] of
    capacity 2, and the school in which both are registered. *)
Definition heap_S001_CS101 : Heap :=
  mkHeap [Student.new "S001" "Ann" "ann@example.org" no_address FRESHMAN 0]
         []
         [Course.new "CS101" "Programming Paradigms" 4 2].

Definition school_one_one : School.t :=
  School.addCourse 0%nat (School.addStudent 0%nat (School.new "College")).

(** Students [A] and [B] and the course [X] of capacity 1, all registered. *)
Definition heap_AB_X : Heap :=
  mkHeap [Student.new "A" "Ada" "" no_address JUNIOR 0;
          Student.new "B" "Ben" "" no_address JUNIOR 0]
         []
         [Course.new "X" "Logic" 3 1].

Definition school_two_one : School.t :=
  School.addCourse 0%nat
    (School.addStudent 1%nat (School.addStudent 0%nat (School.new "College"))).

(** A client that registers one student and one course and enrolls the
    student. *)
Definition script_happy : list Op :=
  [MakeStudent "S001" "Ann" "ann@example.org" no_address FRESHMAN 0;
   MakeCourse "CS101" "Programming Paradigms" 4 2;
   AddStudent 0%nat; AddCourse 0%nat;
   EnrollStudentInCourse "S001" "CS101"].

(** A client that registers two student objects with the same id [A] and
    enrolls [A] in course [X]. *)
Definition script_duplicate_id : list Op :=
  [MakeStudent "A" "Ada" "" no_address JUNIOR 0;
   MakeStudent "A" "Ada again" "" no_address SENIOR 1;
   MakeCourse "X" "Logic" 3 Course.default_capacity;
   AddStudent 0%nat; AddStudent 1%nat; AddCourse 0%nat;
   EnrollStudentInCourse "A" "X"].

(** A client that registers a course of capacity -1 and enrolls a
    student in it. *)
Definition script_negative_capacity : list Op :=
  [MakeStudent "A" "Ada" "" no_address JUNIOR 0;
   MakeCourse "X" "Logic" 3 (-1);
   AddStudent 0%nat; AddCourse 0%nat;
   EnrollStudentInCourse "A" "X"].

(** A client that registers two student objects with the same id [A] and
    the course [X], and attaches the observer [7] to the second object. *)
Definition script_shadowed_student : list Op :=
  [MakeStudent "A" "Ada" "" no_address JUNIOR 0;
   MakeStudent "A" "Ada again" "" no_address SENIOR 1;
   MakeCourse "X" "Logic" 3 Course.default_capacity;
   AddStudent 0%nat; AddStudent 1%nat; AddCourse 0%nat;
   AddObserver 1%nat 7%nat].

(** Two student objects with the id [S001]; the first one is registered. *)
Definition heap_twice_S001 : Heap :=
  mkHeap [Student.new "S001" "Ann" "ann@example.org" no_address FRESHMAN 0;
          Student.new "S001" "Ann" "ann@example.org" no_address FRESHMAN 1]
         [] [].

Definition school_first_S001 : School.t :=
  School.addStudent 0%nat (School.new "College").

(** Students [A] and [B] with an overall WAM of 80 and [C] with 70,
    registered in this order. *)
Definition student_with_score (id : string) (score : Z) : Student.t :=
  Student.set_courses [("CS101"%string, Some (Float32.of_Z score))]
    (Student.new id id "" no_address SOPHOMORE 0).

Definition heap_ABC : Heap :=
  mkHeap [student_with_score "A" 80; student_with_score "B" 80;
          student_with_score "C" 70] [] [].

Definition school_ABC : School.t :=
  School.addStudent 2%nat
    (School.addStudent 1%nat (School.addStudent 0%nat (School.new "College"))).

(** Seventeen students without a score, registered in the order of their
    names. *)
Definition names_17 : list string :=
  ["S01"; "S02"; "S03"; "S04"; "S05"; "S06"; "S07"; "S08"; "S09"; "S10";
   "S11"; "S12"; "S13"; "S14"; "S15"; "S16"; "S17"]%string.

Definition heap_17 : Heap :=
  mkHeap (map (fun name => Student.new name name "" no_address SOPHOMORE 0)
              names_17) [] [].

Definition school_17 : School.t :=
  fold_left (fun sc student => School.addStudent student sc)
            (seq 0 17) (School.new "College").

(** The store after [A] has been enrolled in [X]. *)
Definition heap_A_in_X : Heap :=
  mkHeap [Student.set_courses [("X"%string, None)]
            (Student.new "A" "Ada" "" no_address JUNIOR 0);
          Student.new "B" "Ben" "" no_address JUNIOR 0]
         []
         [Course.mk "X" "Logic" 3 1 {[ "A"%string ]} ∅].

(** The world a script ends in, and what it has written by then. *)
Definition world_after (ops : list Op) : World :=
  match run ops (init_world "College") with
  | Some (w, _) => w
  | None => init_world "College"
  end.

Definition output_of (ops : list Op) : list Output :=
  match run ops (init_world "College") with
  | Some (_, out) => out
  | None => []
  end.

Definition world_happy : World := Eval vm_compute in world_after script_happy.

Definition world_duplicate_id : World :=
  Eval vm_compute in world_after script_duplicate_id.

Definition world_negative_capacity : World :=
  Eval vm_compute in world_after script_negative_capacity.

Definition world_shadowed_student : World :=
  Eval vm_compute in world_after script_shadowed_student.

(** A client that assigns a list of courses to a teacher, one call of
    [assignCourse] for each. *)
Definition assign_courses (course_ids : list string) (x : Teacher.t)
    : Teacher.t :=
  fold_left (fun x course_id => Teacher.assignCourse course_id x)
            course_ids x.

(** Three teachers, two of them in the department of computing. *)
Definition heap_teachers : Heap :=
  mkHeap []
    [Teacher.new "T1" "Tia" "" no_address "Computing" "Networks" 0;
     Teacher.new "T2" "Tom" "" no_address "Careers" "Career Skills" 0;
     Teacher.new "T3" "Tess" "" no_address "Computing" "Backends" 0]
    [].

Definition school_teachers : School.t :=
  School.addTeacher 2%nat
    (School.addTeacher 1%nat (School.addTeacher 0%nat (School.new "College"))).

(** The map holds, for each department, the number of its teachers among
    [xs], and no entry for a department without a teacher. *)
Definition counts_of (xs : list Teacher.t) (stats : StdMap.t Z) : Prop :=
  forall department,
    StdMap.find department stats =
      if decide (in_department department xs = []) then None
      else Some (Z.of_nat (length (in_department department xs))).

(** ** Strings, as the loaders use them *)

(** The characters that the loaders trim: [" \t\n\r\f\v"]. *)
Definition whitespace : string :=
  String " " (String "009" (String "010" (String "013" (String "012"
    (String "011" EmptyString))))).

Fixpoint contains_char (chars : string) (c : ascii) : bool :=
  match chars with
  | EmptyString => false
  | String c' chars' => Ascii.eqb c c' || contains_char chars' c
  end.

(** [s.find_first_not_of(chars)] and [s.find_last_not_of(chars)]; [None]
    is [string::npos]. *)
Fixpoint find_first_not_of (chars s : string) : option nat :=
  match s with
  | EmptyString => None
  | String c s' =>
      if contains_char chars c then S <$> find_first_not_of chars s'
      else Some 0%nat
  end.

Fixpoint find_last_not_of (chars s : string) : option nat :=
  match s with
  | EmptyString => None
  | String c s' =>
      match find_last_not_of chars s' with
      | Some i => Some (S i)
      | None => if contains_char chars c then None else Some 0%nat
      end
  end.

Fixpoint string_take (n : nat) (s : string) : string :=
  match n, s with
  | S n', String c s' => String c (string_take n' s')
  | _, _ => EmptyString
  end.

Fixpoint string_drop (n : nat) (s : string) : string :=
  match n, s with
  | S n', String _ s' => string_drop n' s'
  | _, _ => s
  end.

(** [s.erase(pos, count)] for a position within the string; a [count] of
    [None] is [npos], the default: everything from [pos] on is erased. *)
Definition erase (pos : nat) (count : option nat) (s : string) : string :=
  match count with
  | None => string_take pos s
  | Some n => string_take pos s +:+ string_drop (pos + n) s
  end.

(** The two [erase] calls on a token. In the second one [npos + 1] wraps
    around to 0. *)
Definition trim (token : string) : string :=
  let token := erase 0 (find_first_not_of whitespace token) token in
  erase (match find_last_not_of whitespace token with
         | Some i => S i
         | None => 0%nat
         end) None token.

(** The strings that the loop [while (getline(stream, token, delim))]
    reads from a stream holding [s]; [token] is what the current call has
    extracted so far. A call that extracts nothing at the end of the
    stream fails and ends the loop. *)
Fixpoint getlines (delim : ascii) (s : string) (token : string)
    : list string :=
  match s with
  | EmptyString =>
      match token with
      | EmptyString => []
      | _ => [token]
      end
  | String c s' =>
      if Ascii.eqb c delim then token :: getlines delim s' EmptyString
      else getlines delim s' (token +:+ String c EmptyString)
  end.

(** The inner loop of the loaders: the trimmed fields of a line. *)
Definition tokens_of (line : string) : list string :=
  map trim (getlines "," line EmptyString).

(** ** The loaders

    The file system is a function from file names to contents, [None] for
    a file that cannot be opened. [now k] is the reading of the clock for
    the [k]-th object the call constructs. The vector of [shared_ptr]s that
    a loader returns is given as the list of the new objects it points to. *)

Definition invalid_student_record (line : string) : string :=
  RED +:+ "Invalid student record: " +:+ line +:+ RESET +:+ endl.

Definition invalid_teacher_record (line : string) : string :=
  RED +:+ "Invalid teacher record: " +:+ line +:+ RESET +:+ endl.

Definition could_not_open (filename : string) : Exception :=
  runtime_error ("Could not open file: " +:+ filename).

Fixpoint read_student_lines (now : nat -> Z) (lines : list string)
    (students : list Student.t) : list Output * Result (list Student.t) :=
  match lines with
  | [] => ([], Ok students)
  | line :: rest =>
      let tokens := tokens_of line in
      if negb (length tokens =? 8)%nat then
        let '(out, result) := read_student_lines now rest students in
        (Cerr (invalid_student_record line) :: out, result)
      else
        let addr := mkAddress (nth 3 tokens "") (nth 4 tokens "")
                              (nth 5 tokens "") (nth 6 tokens "") in
        match stringToGradeLevel (nth 7 tokens "") with
        | Throw e => ([], Throw e)
        | Ok grade_level =>
            read_student_lines now rest
              (students ++
                 [Student.new (nth 0 tokens "") (nth 1 tokens "")
                    (nth 2 tokens "") addr grade_level
                    (now (length students))])
        end
  end.

Definition readStudentsFromFile (fs : string -> option string)
    (now : nat -> Z) (filename : string)
    : list Output * Result (list Student.t) :=
  match fs filename with
  | None => ([], Throw (could_not_open filename))
  | Some content =>
      read_student_lines now (getlines "010" content EmptyString) []
  end.

Fixpoint read_teacher_lines (now : nat -> Z) (lines : list string)
    (teachers : list Teacher.t) : list Output * Result (list Teacher.t) :=
  match lines with
  | [] => ([], Ok teachers)
  | line :: rest =>
      let tokens := tokens_of line in
      if negb (length tokens =? 9)%nat then
        let '(out, result) := read_teacher_lines now rest teachers in
        (Cerr (invalid_teacher_record line) :: out, result)
      else
        let addr := mkAddress (nth 3 tokens "") (nth 4 tokens "")
                              (nth 5 tokens "") (nth 6 tokens "") in
        read_teacher_lines now rest
          (teachers ++
             [Teacher.new (nth 0 tokens "") (nth 1 tokens "")
                (nth 2 tokens "") addr (nth 7 tokens "") (nth 8 tokens "")
                (now (length teachers))])
  end.

Definition readTeachersFromFile (fs : string -> option string)
    (now : nat -> Z) (filename : string)
    : list Output * Result (list Teacher.t) :=
  match fs filename with
  | None => ([], Throw (could_not_open filename))
  | Some content =>
      read_teacher_lines now (getlines "010" content EmptyString) []
  end.

(** ** Properties of strings and rosters *)

Definition is_space (c : ascii) : bool := contains_char whitespace c.

Fixpoint all_space (s : string) : bool :=
  match s with
  | EmptyString => true
  | String c s' => is_space c && all_space s'
  end.

Fixpoint has_char (c : ascii) (s : string) : bool :=
  match s with
  | EmptyString => false
  | String c' s' => Ascii.eqb c' c || has_char c s'
  end.

(** A string that neither begins nor ends with a white-space character. *)
Definition trimmed (s : string) : Prop :=
  (forall c t, s = String c t -> is_space c = false) /\
  (forall t c, s = t +:+ String c EmptyString -> is_space c = false).

(** A field that a record can carry through a load unchanged. *)
Definition clean_field (f : string) : Prop :=
  trimmed f /\ has_char "," f = false /\ has_char "010" f = false.

(** The fields of a student, and the line that lists them. *)
Definition student_fields (s : Student.t) : list string :=
  let p := Student.person s in
  [Person.id p; Person.name p; Person.email p;
   street (Person.address p); city (Person.address p);
   state (Person.address p); zip_code (Person.address p);
   gradeLevelToString (Student.grade_level s)].

Definition student_record (s : Student.t) : string :=
  String.concat "," (student_fields s).

(** A file with the given lines, each ended by a newline. *)
Fixpoint file_of_lines (lines : list string) : string :=
  match lines with
  | [] => EmptyString
  | line :: rest => line +:+ endl +:+ file_of_lines rest
  end.

(** [s] is what the constructor makes of clean fields at clock reading
    [time]. *)
Definition fresh_student (time : Z) (s : Student.t) : Prop :=
  Student.courses s = [] /\
  Student.observable s = Observable.init /\
  Person.created_at (Student.person s) = time /\
  Forall clean_field (student_fields s).


(** One line that loads, one that is malformed, one that loads. *)
Definition students_txt : string :=
  file_of_lines
    ["S001, Ann Lee, ann@example.org, 1 Main St, Springfield, IL, 62701, JUNIOR";
     "S002, Bob";
     " S003 ,Cy Young,cy@example.org,2 Elm St,Shelbyville,IL,62565,SENIOR "]%string.

Definition teachers_txt : string :=
  file_of_lines
    ["T1, Tia, tia@example.org, 3 Oak St, Springfield, IL, 62701, Computing, Networks";
     "T2, Tom, FRESHMAN"]%string.

Definition one_file (name content : string) (filename : string)
    : option string :=
  if String.eqb filename name then Some content else None.

(** Two students as a loader constructs them, at clock readings 0 and 1. *)
Definition loaded_S001 : Student.t :=
  Student.new "S001" "Ann Lee" "ann@example.org"
    (mkAddress "1 Main St" "Springfield" "IL" "62701") JUNIOR 0.

Definition loaded_S003 : Student.t :=
  Student.new "S003" "Cy Young" "cy@example.org"
    (mkAddress "2 Elm St" "Shelbyville" "IL" "62565") SENIOR 1.

(** A score between 50 and 95, the bounds of the distribution. *)
Definition drawn_score (wam : float) : Prop :=
  Float32.in_interval (Float32.of_Z 50) (Float32.of_Z 95) wam = true.

(** Every slot of the student holds a drawn score. *)
Definition all_scored (s : Student.t) : Prop :=
  forall course_id slot, (course_id, slot) ∈ Student.courses s ->
    exists wam, slot = Some wam /\ drawn_score wam.

(** The map in which the slots hold the draws from the [k]-th on. *)
Fixpoint scored (draw : nat -> float) (k : nat)
    (m : StdMap.t (option float)) : StdMap.t (option float) :=
  match m with
  | [] => []
  | (course_id, _) :: m' => (course_id, Some (draw k)) :: scored draw (S k) m'
  end.

(** * Proofs *)

(** ** Order of binary32 numbers *)

Ltac compare_cases :=
  repeat match goal with
  | |- context [Z.compare ?a ?b] => destruct (Z.compare_spec a b)
  | H : context [Z.compare ?a ?b] |- _ => destruct (Z.compare_spec a b)
  | |- context [Pos.compare ?a ?b] => destruct (Pos.compare_spec a b)
  | H : context [Pos.compare ?a ?b] |- _ => destruct (Pos.compare_spec a b)
  end.

Ltac float_order :=
  unfold Float32.in_interval, Float32.ltb, Float32.leb, SFltb, SFleb,
    SFcompare, Float32.is_nan in *;
  repeat match goal with
  | x : Float32.t |- _ => destruct x as [[]|[]| |[] ? ?]
  | x : spec_float |- _ => destruct x as [[]|[]| |[] ? ?]
  end;
  simpl in *; try congruence;
  change (Pos.compare_cont Eq) with Pos.compare in *;
  compare_cases; simpl in *; subst; try congruence; try lia.

Lemma ltb_irrefl (a : float) : Float32.ltb a a = false.
Proof. float_order. Qed.

Lemma ltb_trans (a b c : float) :
  Float32.ltb a b = true -> Float32.ltb b c = true -> Float32.ltb a c = true.
Proof. float_order. Qed.

Lemma ltb_neg_trans (a b c : float) :
  Float32.is_nan b = false ->
  Float32.ltb a b = false -> Float32.ltb b c = false ->
  Float32.ltb a c = false.
Proof. float_order. Qed.

Lemma leb_negb_ltb (a b : float) :
  Float32.is_nan a = false -> Float32.is_nan b = false ->
  Float32.leb a b = negb (Float32.ltb b a).
Proof. float_order. Qed.

Lemma leb_not_nan (a b : float) :
  Float32.leb a b = true ->
  Float32.is_nan a = false /\ Float32.is_nan b = false.
Proof. float_order; auto. Qed.

(** The guard of [updateWAM] and the interval [[0, 100]] agree on every
    number; NaN is in neither. *)
Lemma guard_valid_score (wam : float) :
  Float32.is_nan wam = false ->
  Float32.ltb wam (Float32.of_Z 0) || Float32.ltb (Float32.of_Z 100) wam
  = negb (valid_score wam).
Proof.
  intros Hnan. unfold valid_score, Float32.in_interval.
  rewrite !leb_negb_ltb by (done || reflexivity).
  rewrite negb_andb, !negb_involutive. reflexivity.
Qed.

Lemma valid_score_not_nan (wam : float) :
  valid_score wam = true -> Float32.is_nan wam = false.
Proof.
  unfold valid_score, Float32.in_interval. intros [H _]%andb_true_iff.
  apply leb_not_nan in H. tauto.
Qed.

(** ** std::map *)

Section StdMapFacts.
Context {V : Type}.
Implicit Types (m : StdMap.t V) (k : string) (v : V).

Lemma find_assign_eq k v m : StdMap.find k (StdMap.assign k v m) = Some v.
Proof.
  induction m as [|[k' v'] m IH]; simpl.
  - by rewrite String.eqb_refl.
  - destruct (String.compare k k') eqn:Hc; simpl.
    + by rewrite String.eqb_refl.
    + by rewrite String.eqb_refl.
    + destruct (String.eqb_spec k k') as [->|_]; [|done].
      assert (String.compare k' k' = Eq) as E
        by (destruct (String.compare k' k') eqn:E; try done;
            pose proof (String.compare_antisym k' k') as A;
            rewrite E in A; discriminate).
      congruence.
Qed.

Lemma find_assign_ne k k' v m :
  k <> k' -> StdMap.find k' (StdMap.assign k v m) = StdMap.find k' m.
Proof.
  intros Hne. induction m as [|[k0 v0] m IH]; simpl.
  - destruct (String.eqb_spec k' k); congruence.
  - destruct (String.compare k k0) eqn:Hc; simpl.
    + apply String.compare_eq_iff in Hc as <-.
      destruct (String.eqb_spec k' k); congruence.
    + destruct (String.eqb_spec k' k); congruence.
    + rewrite IH. reflexivity.
Qed.

Lemma keys_assign k k' v m :
  k' ∈ StdMap.keys (StdMap.assign k v m) <-> k' = k \/ k' ∈ StdMap.keys m.
Proof.
  unfold StdMap.keys. induction m as [|[k0 v0] m IH]; simpl.
  - rewrite list_elem_of_singleton. set_solver.
  - destruct (String.compare k k0) eqn:Hc; simpl.
    + apply String.compare_eq_iff in Hc as <-. set_solver.
    + set_solver.
    + set_solver.
Qed.

Lemma find_is_Some_keys k m :
  is_Some (StdMap.find k m) <-> k ∈ StdMap.keys m.
Proof.
  unfold StdMap.keys. induction m as [|[k0 v0] m IH]; simpl.
  - split; [intros [? [=]] | intros []%elem_of_nil].
  - destruct (String.eqb_spec k k0) as [->|Hne].
    + split; [set_solver | eauto].
    + rewrite IH. set_solver.
Qed.

End StdMapFacts.

(** ** Student::updateWAM *)

(** What [updateWAM] does once the range guard has let the score pass. *)
Lemma updateWAM_accepted course_id wam s :
  Float32.ltb wam (Float32.of_Z 0) || Float32.ltb (Float32.of_Z 100) wam
    = false ->
  Student.updateWAM course_id wam s =
    match StdMap.find course_id (Student.courses s) with
    | Some old_wam =>
        (Student.set_courses
           (StdMap.assign course_id (Some wam) (Student.courses s)) s,
         [Notify (mkScoreEvent (Student.getId s) course_id old_wam wam)
                 (Observable.observers (Student.observable s))])
    | None => (s, [])
    end.
Proof. intros Hg. unfold Student.updateWAM. rewrite Hg. reflexivity. Qed.

(** A number outside [[0, 100]] is rejected: the diagnostic is written, the
    student is left as it was and [notify] is not called. *)
Lemma updateWAM_rejects_number course_id wam s :
  Float32.is_nan wam = false ->
  valid_score wam = false ->
  Student.updateWAM course_id wam s =
    (s, [Cerr Student.invalid_wam_message]).
Proof.
  intros Hnan Hv. unfold Student.updateWAM.
  rewrite guard_valid_score, Hv by done. reflexivity.
Qed.

(** The bounds themselves pass the guard. *)
Lemma updateWAM_accepts_bounds course_id s old_wam :
  StdMap.find course_id (Student.courses s) = Some old_wam ->
  forall wam, wam = Float32.of_Z 0 \/ wam = Float32.of_Z 100 ->
  StdMap.find course_id
    (Student.courses (fst (Student.updateWAM course_id wam s)))
    = Some (Some wam).
Proof.
  intros Hf wam Hw. rewrite updateWAM_accepted, Hf.
  - simpl. apply find_assign_eq.
  - destruct Hw as [-> | ->]; reflexivity.
Qed.

(** C7, at the input on which the program departs from it: NaN is not in
    [[0, 100]], yet [updateWAM] does not reject it. The score 80 that student
    [S001] had in [CS101] is overwritten with NaN, no diagnostic is written
    and the observers are notified of the change. *)
Theorem updateWAM_stores_nan :
  valid_score S754_nan = false /\
  StdMap.find "CS101" (Student.courses student_S001_scored)
    = Some (Some (Float32.of_Z 80)) /\
  Student.updateWAM "CS101" S754_nan student_S001_scored =
    (Student.set_courses
       [("CS101"%string, Some S754_nan); ("CS201"%string, None)]
       student_S001_scored,
     [Notify (mkScoreEvent "S001" "CS101" (Some (Float32.of_Z 80)) S754_nan)
             []]).
Proof. repeat split. Qed.

(** C10: frame property of [updateWAM]. For a course of the enrollment map
    and a score in [[0, 100]], the call stores the score in the slot of that
    course and changes nothing else: the key set of the map, the slots of
    the other courses, the identity fields, the grade level and the
    observer list are as before. *)
Theorem updateWAM_frame (s s' : Student.t) (course_id : string)
    (wam : float) (out : list Output) :
  course_id ∈ StdMap.keys (Student.courses s) ->
  valid_score wam = true ->
  Student.updateWAM course_id wam s = (s', out) ->
  StdMap.find course_id (Student.courses s') = Some (Some wam) /\
  (forall k, k ∈ StdMap.keys (Student.courses s') <->
             k ∈ StdMap.keys (Student.courses s)) /\
  (forall k, k <> course_id ->
     StdMap.find k (Student.courses s') = StdMap.find k (Student.courses s)) /\
  Student.person s' = Student.person s /\
  Student.grade_level s' = Student.grade_level s /\
  Student.observable s' = Student.observable s.
Proof.
  intros Hin Hv Hup.
  pose proof (valid_score_not_nan _ Hv) as Hnan.
  rewrite updateWAM_accepted in Hup
    by (rewrite guard_valid_score, Hv; done).
  apply find_is_Some_keys in Hin as Hsome. destruct Hsome as [old Hold].
  rewrite Hold in Hup. injection Hup as <- <-. simpl.
  split; [apply find_assign_eq|].
  split; [|split; [|done]].
  - intros k. rewrite keys_assign. split; [intros [->|]; done | auto].
  - intros k Hk. apply find_assign_ne. congruence.
Qed.

Lemma updateWAM_frame_witness :
  StdMap.find "CS201"
    (Student.courses (fst (Student.updateWAM "CS101" (Float32.of_Z 80)
                             student_S001)))
  = StdMap.find "CS201" (Student.courses student_S001).
Proof.
  refine (proj1 (proj2 (proj2
    (updateWAM_frame student_S001 _ "CS101" (Float32.of_Z 80) _ _ _ _)))
    "CS201"%string _).
  - vm_compute. apply list_elem_of_here.
  - reflexivity.
  - apply surjective_pairing.
  - discriminate.
Defined.

(** ** Student::overallWAM *)

Lemma collect_wams_app (m : StdMap.t (option float)) (acc : list float) :
  fold_left (fun wams course =>
               match snd course with
               | Some wam => wams ++ [wam]
               | None => wams
               end) m acc
  = acc ++ omap snd m.
Proof.
  revert acc. induction m as [|[k [v|]] m IH]; intros acc; simpl.
  - by rewrite app_nil_r.
  - rewrite IH, <- app_assoc. reflexivity.
  - apply IH.
Qed.

Lemma collect_wams_present (s : Student.t) :
  Student.collect_wams (Student.courses s) = present_scores s.
Proof. unfold Student.collect_wams. by rewrite collect_wams_app. Qed.




(** ** find_if *)

Section FindIf.
Context {A : Type}.
Implicit Types (objs : list A) (pred : A -> bool) (v : list ptr).

Lemma find_if_found objs pred v p :
  find_if objs pred v = Some (Some p) ->
  p ∈ v /\ exists a, objs !! p = Some a /\ pred a = true.
Proof.
  induction v as [|q v IH]; simpl; [done|].
  destruct (objs !! q) as [a|] eqn:Hq; simpl; [|done].
  destruct (pred a) eqn:Hp.
  - intros [= <-]. split; [apply list_elem_of_here | eauto].
  - intros [Hin Ha]%IH. split; [by apply list_elem_of_further | done].
Qed.

Lemma find_if_end objs pred v :
  find_if objs pred v = Some None ->
  forall p a, p ∈ v -> objs !! p = Some a -> pred a = false.
Proof.
  induction v as [|q v IH]; simpl; [intros _ p a []%elem_of_nil|].
  destruct (objs !! q) as [a|] eqn:Hq; simpl; [|done].
  destruct (pred a) eqn:Hp; [done|].
  intros Hf p b [->|Hin]%elem_of_cons Hb; [congruence | eauto].
Qed.

Lemma find_if_end_intro objs pred v :
  (forall p, p ∈ v -> is_Some (objs !! p)) ->
  (forall p a, p ∈ v -> objs !! p = Some a -> pred a = false) ->
  find_if objs pred v = Some None.
Proof.
  induction v as [|q v IH]; simpl; [done|]. intros Hwf Hno.
  destruct (Hwf q) as [a Ha]; [apply list_elem_of_here|].
  rewrite Ha. simpl. rewrite (Hno q a) by (done || apply list_elem_of_here).
  apply IH; intros; [apply Hwf | eapply Hno]; eauto using list_elem_of_further.
Qed.

Lemma find_if_total objs pred v :
  (forall p, p ∈ v -> is_Some (objs !! p)) ->
  is_Some (find_if objs pred v).
Proof.
  induction v as [|q v IH]; simpl; [eauto|]. intros Hwf.
  destruct (Hwf q) as [a Ha]; [apply list_elem_of_here|].
  rewrite Ha. simpl. destruct (pred a); [eauto|].
  apply IH. eauto using list_elem_of_further.
Qed.

(** The search depends on the objects only through the predicate. *)
Lemma find_if_ext objs objs' pred v :
  (forall p, p ∈ v -> pred <$> objs !! p = pred <$> objs' !! p) ->
  find_if objs pred v = find_if objs' pred v.
Proof.
  induction v as [|q v IH]; simpl; [done|]. intros H.
  pose proof (H q (list_elem_of_here _ _)) as Hq.
  rewrite IH by eauto using list_elem_of_further.
  destruct (objs !! q), (objs' !! q); simpl in *; try done.
  by injection Hq as ->.
Qed.
End FindIf.

(** ** School::addStudent, addTeacher, addCourse *)

(** C4, as the program has it: each of [addStudent], [addTeacher] and
    [addCourse] appends the handle to its collection and leaves the other
    two collections and the name as they were, whatever the collection
    holds already; there is no failure. *)
Theorem register_appends (p : ptr) (sc : School.t) :
  (School.students (School.addStudent p sc) = School.students sc ++ [p] /\
   School.teachers (School.addStudent p sc) = School.teachers sc /\
   School.courses (School.addStudent p sc) = School.courses sc /\
   School.name (School.addStudent p sc) = School.name sc) /\
  (School.teachers (School.addTeacher p sc) = School.teachers sc ++ [p] /\
   School.students (School.addTeacher p sc) = School.students sc /\
   School.courses (School.addTeacher p sc) = School.courses sc /\
   School.name (School.addTeacher p sc) = School.name sc) /\
  (School.courses (School.addCourse p sc) = School.courses sc ++ [p] /\
   School.students (School.addCourse p sc) = School.students sc /\
   School.teachers (School.addCourse p sc) = School.teachers sc /\
   School.name (School.addCourse p sc) = School.name sc).
Proof. repeat split. Qed.

(** ** School::enrollStudentInCourse *)

Lemma set_course_same (h : Heap) (p : ptr) (c : Course.t) :
  course_objs h !! p = Some c -> set_course p c h = h.
Proof.
  intros H. destruct h as [ss ts cs]. unfold set_course. simpl in *.
  by rewrite list_insert_id.
Qed.

Lemma set_student_same (h : Heap) (p : ptr) (s : Student.t) :
  student_objs h !! p = Some s -> set_student p s h = h.
Proof.
  intros H. destruct h as [ss ts cs]. unfold set_student. simpl in *.
  by rewrite list_insert_id.
Qed.

(** The call once both ids have been resolved. *)
Lemma enroll_resolved student_id course_id sc h ps pc s c :
  resolve_student h sc student_id = Some (Some ps) ->
  resolve_course h sc course_id = Some (Some pc) ->
  student_objs h !! ps = Some s ->
  course_objs h !! pc = Some c ->
  School.enrollStudentInCourse student_id course_id sc h =
    Some (if Z.of_nat (size (Course.enrolled_students c))
               <? to_size_t (Course.capacity c)
          then (true,
                set_student ps (fst (Student.enroll course_id s))
                  (set_course pc (snd (Course.enrollStudent student_id c)) h),
                snd (Student.enroll course_id s))
          else (false, h, [Cerr (School.full_message course_id)])).
Proof.
  unfold resolve_student, resolve_course, School.enrollStudentInCourse.
  intros -> -> Hs Hc. simpl. rewrite Hc. simpl.
  unfold Course.enrollStudent.
  destruct (_ <? _); simpl.
  - rewrite Hs. simpl. by destruct (Student.enroll course_id s).
  - by rewrite set_course_same.
Qed.

Lemma resolve_student_id h sc student_id ps :
  resolve_student h sc student_id = Some (Some ps) ->
  exists s, student_at h sc ps s /\ Student.getId s = student_id.
Proof.
  intros (Hin & s & Hs & Hp%String.eqb_eq)%find_if_found.
  exists s. by repeat split.
Qed.

Lemma resolve_course_id h sc course_id pc :
  resolve_course h sc course_id = Some (Some pc) ->
  exists c, course_at h sc pc c /\ Course.getId c = course_id.
Proof.
  intros (Hin & c & Hc & Hp%String.eqb_eq)%find_if_found.
  exists c. by repeat split.
Qed.

(** C5: when the student id or the course id is not the id of a registered
    object, [enrollStudentInCourse] fails: it reports that the student or
    the course was not found and returns [false]; no object of the store
    is modified and [notify] is not called. *)
Theorem enroll_not_found (student_id course_id : string) (sc : School.t)
    (h : Heap) :
  wf h sc ->
  unknown_student h sc student_id \/ unknown_course h sc course_id ->
  School.enrollStudentInCourse student_id course_id sc h =
    Some (false, h, [Cerr School.not_found_message]).
Proof.
  intros (Hws & _ & Hwc) Hun. unfold School.enrollStudentInCourse.
  destruct (find_if_total (student_objs h)
    (fun s => String.eqb (Student.getId s) student_id) _ Hws) as [sit Hsit].
  destruct (find_if_total (course_objs h)
    (fun c => String.eqb (Course.getId c) course_id) _ Hwc) as [cit Hcit].
  rewrite Hsit, Hcit. simpl.
  destruct sit as [ps|]; [|done]. destruct cit as [pc|]; [|done].
  apply resolve_student_id in Hsit as (s & Hs & Hsid).
  apply resolve_course_id in Hcit as (c & Hc & Hcid).
  destruct Hun as [Hun|Hun]; [destruct (Hun _ _ Hs Hsid)
                             | destruct (Hun _ _ Hc Hcid)].
Qed.





Lemma heap_S001_CS101_wf : wf heap_S001_CS101 school_one_one.
Proof.
  repeat split; simpl; intros p Hp; try by apply elem_of_nil in Hp.
  all: apply list_elem_of_singleton in Hp as ->; eauto.
Qed.



(** C6 fails as stated: two student objects with the id [A] are registered,
    the second one with the observer [7], and so is the course [X], which
    has free seats; no one is enrolled. [enrollStudentInCourse] on the id
    of the second object and [X] returns [true], but the id is resolved to
    the first object: the second object is as before, with no slot for [X],
    and the one event goes to the observers of the first object, of which
    there are none, and not to the observer of the second. *)
Lemma shadowed_student_not_enrolled :
  let w := world_shadowed_student in
  let s2 := Student.addObserver 7%nat
              (Student.new "A" "Ada again" "" no_address SENIOR 1) in
  run script_shadowed_student (init_world "College") = Some (w, []) /\
  student_at (heap w) (school w) 1%nat s2 /\
  Observable.observers (Student.observable s2) = [7%nat] /\
  StdMap.keys (Student.courses s2) = [] /\
  (exists c, course_at (heap w) (school w) 0%nat c /\
     Course.getId c = "X"%string /\
     Z.of_nat (size (Course.enrolled_students c)) < Course.capacity c) /\
  exists h',
    School.enrollStudentInCourse (Student.getId s2) "X" (school w) (heap w)
    = Some (true, h',
            [Notify (mkScoreEvent "A" "X" None Float32.zero) []]) /\
    student_objs h' !! 1%nat = Some s2.
Proof.
  split; [vm_compute; reflexivity|].
  split; [split; [by apply list_elem_of_further, list_elem_of_here
                 | reflexivity]|].
  split; [reflexivity|]. split; [reflexivity|]. split.
  - exists (Course.new "X" "Logic" 3 Course.default_capacity).
    split; [split; [apply list_elem_of_here | reflexivity]|].
    split; [reflexivity|]. vm_compute. reflexivity.
  - exists (mkHeap
      [Student.set_courses [("X"%string, None)]
         (Student.new "A" "Ada" "" no_address JUNIOR 0);
       Student.addObserver 7%nat
         (Student.new "A" "Ada again" "" no_address SENIOR 1)]
      []
      [Course.mk "X" "Logic" 3 Course.default_capacity {[ "A"%string ]} ∅]).
    split; [vm_compute; reflexivity | reflexivity].
Qed.

Lemma enroll_not_found_witness :
  School.enrollStudentInCourse "S999" "CS101" school_one_one heap_S001_CS101
  = Some (false, heap_S001_CS101, [Cerr School.not_found_message]).
Proof.
  apply enroll_not_found; [apply heap_S001_CS101_wf|].
  left. intros p s [Hp Hs] Hid. simpl in Hp.
  apply list_elem_of_singleton in Hp as ->.
  injection Hs as <-. discriminate Hid.
Defined.


(** Enrolling a pair that is linked already, in a course that still has a
    free seat: the store is left as it was, the call returns [true] and
    [notify] is not called. *)
Lemma reenroll_with_free_seat student_id course_id sc h ps pc s c :
  resolve_student h sc student_id = Some (Some ps) ->
  resolve_course h sc course_id = Some (Some pc) ->
  student_objs h !! ps = Some s ->
  course_objs h !! pc = Some c ->
  student_id ∈ Course.enrolled_students c ->
  course_id ∈ StdMap.keys (Student.courses s) ->
  Z.of_nat (size (Course.enrolled_students c)) < to_size_t (Course.capacity c) ->
  School.enrollStudentInCourse student_id course_id sc h = Some (true, h, []).
Proof.
  intros Hrs Hrc Hs Hc Hin Hkey Hfree.
  rewrite (enroll_resolved _ _ _ _ _ _ _ _ Hrs Hrc Hs Hc).
  unfold Student.enroll, Course.enrollStudent.
  rewrite (proj2 (Z.ltb_lt _ _) Hfree).
  apply find_is_Some_keys in Hkey as [v Hv]. rewrite Hv. simpl.
  replace ({[student_id]} ∪ Course.enrolled_students c)
    with (Course.enrolled_students c) by set_solver.
  assert ({| Course.id := Course.id c; Course.name := Course.name c;
             Course.credits := Course.credits c;
             Course.capacity := Course.capacity c;
             Course.enrolled_students := Course.enrolled_students c;
             Course.prerequisites := Course.prerequisites c |} = c) as ->
    by by destruct c.
  rewrite set_course_same by done. by rewrite set_student_same.
Qed.

(** C2, at the input on which the program departs from it: course [X] has
    capacity 1. The first [enrollStudentInCourse("A", "X")] returns [true]
    and notifies once; it fills the course. The second call for the same
    pair leaves the store as it was and does not notify, but it reports
    that the course is full and returns [false]. *)
Theorem reenroll_in_full_course :
  exists h1,
    School.enrollStudentInCourse "A" "X" school_two_one heap_AB_X =
      Some (true, h1,
            [Notify (mkScoreEvent "A" "X" None Float32.zero) []]) /\
    School.enrollStudentInCourse "A" "X" school_two_one h1 =
      Some (false, h1, [Cerr (School.full_message "X")]).
Proof. exists heap_A_in_X. split; vm_compute; reflexivity. Qed.

Lemma enroll_cases student_id course_id sc h b h' out :
  School.enrollStudentInCourse student_id course_id sc h = Some (b, h', out) ->
  enroll_effect student_id course_id sc h b h' out.
Proof.
  intros Hcall.
  destruct (resolve_student h sc student_id) as [[ps|]|] eqn:Hrs;
    [| |by unfold School.enrollStudentInCourse, resolve_student in *;
          rewrite Hrs in Hcall].
  2: { unfold School.enrollStudentInCourse, resolve_student in *.
       rewrite Hrs in Hcall. simpl in Hcall.
       destruct (find_if (course_objs h) _ _); [|done].
       injection Hcall as <- <- <-. apply effect_not_found. left.
       intros p s [Hp Hs] Hid.
       pose proof (find_if_end _ _ _ Hrs p s Hp Hs) as Hne.
       simpl in Hne. apply String.eqb_neq in Hne. done. }
  destruct (resolve_course h sc course_id) as [[pc|]|] eqn:Hrc;
    [| |by unfold School.enrollStudentInCourse, resolve_student,
          resolve_course in *; rewrite Hrs, Hrc in Hcall].
  2: { unfold School.enrollStudentInCourse, resolve_student,
         resolve_course in *.
       rewrite Hrs, Hrc in Hcall. injection Hcall as <- <- <-.
       apply effect_not_found. right.
       intros p c [Hp Hc] Hid.
       pose proof (find_if_end _ _ _ Hrc p c Hp Hc) as Hne.
       simpl in Hne. apply String.eqb_neq in Hne. done. }
  destruct (resolve_student_id _ _ _ _ Hrs) as (s & Hsat & Hsid).
  destruct (resolve_course_id _ _ _ _ Hrc) as (c & Hcat & Hcid).
  rewrite (enroll_resolved _ _ _ _ _ _ _ _ Hrs Hrc (proj2 Hsat) (proj2 Hcat))
    in Hcall.
  unfold Course.enrollStudent, set_student, set_course in Hcall.
  destruct (Z.ltb_spec (Z.of_nat (size (Course.enrolled_students c)))
                       (to_size_t (Course.capacity c))) as [Hlt|Hge];
    simpl in Hcall.
  - injection Hcall as <- <- <-.
    eapply effect_enrolled; eauto.
    + unfold Student.enroll. by destruct (StdMap.find _ _).
    + intros k. unfold Student.enroll.
      destruct (StdMap.find course_id (Student.courses s)) eqn:Hf; simpl.
      * assert (course_id ∈ StdMap.keys (Student.courses s))
          by (apply find_is_Some_keys; eauto).
        split; [auto | intros [->|]; done].
      * apply keys_assign.
  - injection Hcall as <- <- <-. eapply effect_full; eauto.
Qed.

(** ** The links between students and courses *)

Lemma linked_init (name : string) : linked empty_heap (School.new name).
Proof.
  split; simpl.
  - repeat split; simpl; intros p Hp; by apply elem_of_nil in Hp.
  - intros p s Hs. by rewrite lookup_nil in Hs.
  - intros p c Hc. by rewrite lookup_nil in Hc.
  - intros pc c sid [Hp _]. by apply elem_of_nil in Hp.
  - intros ps s cid [Hp _]. by apply elem_of_nil in Hp.
Qed.

Lemma lookup_snoc_old {A : Type} (l : list A) (x : A) (p : nat) :
  is_Some (l !! p) -> (l ++ [x]) !! p = l !! p.
Proof. intros [a Ha]. apply lookup_app_l. by eapply lookup_lt_Some. Qed.

Lemma linked_new_student h sc s :
  linked h sc -> Student.courses s = [] ->
  linked (mkHeap (student_objs h ++ [s]) (teacher_objs h) (course_objs h)) sc.
Proof.
  intros [Hwf Hfs Hfc Hcs Hss] Hs.
  set (h' := mkHeap _ _ _).
  assert (forall p s0, student_at h' sc p s0 <-> student_at h sc p s0) as Hold.
  { intros p s0. unfold student_at. simpl.
    split; intros [Hp Hl]; (split; [done|]).
    - by rewrite lookup_snoc_old in Hl by by apply Hwf.
    - by rewrite lookup_snoc_old by by apply Hwf. }
  split.
  - destruct Hwf as (Ws & Wt & Wc). repeat split; simpl; auto.
    intros p Hp. rewrite lookup_snoc_old; auto.
  - simpl. intros p s0 [Hl|[_ Hl]]%lookup_app_Some Hp; [eauto|].
    apply list_lookup_singleton_Some in Hl as [_ <-]. done.
  - exact Hfc.
  - intros pc c sid Hc Hin.
    destruct (Hcs pc c sid Hc Hin) as (ps & s0 & Hat & Hid & Hk).
    exists ps, s0. by rewrite Hold.
  - intros ps s0 cid Hat%Hold Hin.
    destruct (Hss ps s0 cid Hat Hin) as (pc & c & Hc & Hid & Hk).
    by exists pc, c.
Qed.

Lemma linked_new_course h sc c :
  linked h sc -> Course.enrolled_students c = ∅ ->
  linked (mkHeap (student_objs h) (teacher_objs h) (course_objs h ++ [c])) sc.
Proof.
  intros [Hwf Hfs Hfc Hcs Hss] Hc.
  set (h' := mkHeap _ _ _).
  assert (forall p c0, course_at h' sc p c0 <-> course_at h sc p c0) as Hold.
  { intros p c0. unfold course_at. simpl.
    split; intros [Hp Hl]; (split; [done|]).
    - by rewrite lookup_snoc_old in Hl by by apply Hwf.
    - by rewrite lookup_snoc_old by by apply Hwf. }
  split.
  - destruct Hwf as (Ws & Wt & Wc). repeat split; simpl; auto.
    intros p Hp. rewrite lookup_snoc_old; auto.
  - exact Hfs.
  - simpl. intros p c0 [Hl|[_ Hl]]%lookup_app_Some Hp; [eauto|].
    apply list_lookup_singleton_Some in Hl as [_ <-]. done.
  - intros pc c0 sid Hat%Hold Hin.
    destruct (Hcs pc c0 sid Hat Hin) as (ps & s0 & Hs & Hid & Hk).
    by exists ps, s0.
  - intros ps s0 cid Hs Hin.
    destruct (Hss ps s0 cid Hs Hin) as (pc & c0 & Hat & Hid & Hk).
    exists pc, c0. by rewrite Hold.
Qed.

Lemma linked_new_teacher h sc x :
  linked h sc ->
  linked (mkHeap (student_objs h) (teacher_objs h ++ [x]) (course_objs h)) sc.
Proof.
  intros [Hwf Hfs Hfc Hcs Hss]. split; try done.
  destruct Hwf as (Ws & Wt & Wc). repeat split; simpl; auto.
  intros p Hp. rewrite lookup_snoc_old; auto.
Qed.

Lemma linked_add_student h sc p :
  linked h sc -> is_Some (student_objs h !! p) ->
  linked h (School.addStudent p sc).
Proof.
  intros [Hwf Hfs Hfc Hcs Hss] Hp. split.
  - destruct Hwf as (Ws & Wt & Wc). repeat split; simpl; auto.
    intros q [Hq| ->%list_elem_of_singleton]%elem_of_app; auto.
  - simpl. intros q s Hs Hq. apply (Hfs q s Hs). set_solver.
  - exact Hfc.
  - intros pc c sid Hc Hin.
    destruct (Hcs pc c sid Hc Hin) as (ps & s0 & [Hps Hs] & Hid & Hk).
    exists ps, s0. repeat split; try done. simpl. set_solver.
  - intros ps s cid [Hps Hs] Hin. simpl in Hps.
    destruct (decide (ps ∈ School.students sc)) as [Hold|Hnew].
    + destruct (Hss ps s cid (conj Hold Hs) Hin) as (pc & c & Hc & Hid & Hk).
      by exists pc, c.
    + rewrite (Hfs ps s Hs Hnew) in Hin. by apply elem_of_nil in Hin.
Qed.

Lemma linked_add_course h sc p :
  linked h sc -> is_Some (course_objs h !! p) ->
  linked h (School.addCourse p sc).
Proof.
  intros [Hwf Hfs Hfc Hcs Hss] Hp. split.
  - destruct Hwf as (Ws & Wt & Wc). repeat split; simpl; auto.
    intros q [Hq| ->%list_elem_of_singleton]%elem_of_app; auto.
  - exact Hfs.
  - simpl. intros q c Hc Hq. apply (Hfc q c Hc). set_solver.
  - intros pc c sid [Hpc Hc] Hin. simpl in Hpc.
    destruct (decide (pc ∈ School.courses sc)) as [Hold|Hnew].
    + destruct (Hcs pc c sid (conj Hold Hc) Hin) as (ps & s & Hs & Hid & Hk).
      by exists ps, s.
    + rewrite (Hfc pc c Hc Hnew) in Hin. set_solver.
  - intros ps s cid Hs Hin.
    destruct (Hss ps s cid Hs Hin) as (pc & c & [Hpc Hc] & Hid & Hk).
    exists pc, c. repeat split; try done. simpl. set_solver.
Qed.

Lemma linked_add_teacher h sc p :
  linked h sc -> is_Some (teacher_objs h !! p) ->
  linked h (School.addTeacher p sc).
Proof.
  intros [Hwf Hfs Hfc Hcs Hss] Hp. split; try done.
  destruct Hwf as (Ws & Wt & Wc). repeat split; simpl; auto.
  intros q [Hq| ->%list_elem_of_singleton]%elem_of_app; auto.
Qed.

(** Replacing a student by one with the same identity and the same keys. *)
Lemma linked_update_student h sc p s s' :
  linked h sc ->
  student_objs h !! p = Some s ->
  Student.person s' = Student.person s ->
  (forall k, k ∈ StdMap.keys (Student.courses s') <->
             k ∈ StdMap.keys (Student.courses s)) ->
  (Student.courses s = [] -> Student.courses s' = []) ->
  linked (set_student p s' h) sc.
Proof.
  intros [Hwf Hfs Hfc Hcs Hss] Hs Hperson Hkeys Hnil.
  assert (p < length (student_objs h))%nat as Hlt by by eapply lookup_lt_Some.
  split.
  - destruct Hwf as (Ws & Wt & Wc). repeat split; simpl; auto.
    intros q Hq. destruct (decide (q = p)) as [->|Hne].
    + rewrite list_lookup_insert_eq; eauto.
    + rewrite list_lookup_insert_ne; auto.
  - simpl. intros q s0 Hl Hq. destruct (decide (q = p)) as [->|Hne].
    + rewrite list_lookup_insert_eq in Hl by done. injection Hl as <-. eauto.
    + rewrite list_lookup_insert_ne in Hl by done. eauto.
  - exact Hfc.
  - intros pc c sid Hc Hin.
    destruct (Hcs pc c sid Hc Hin) as (ps & s0 & [Hps Hs0] & Hid & Hk).
    destruct (decide (ps = p)) as [->|Hne].
    + exists p, s'. assert (s0 = s) as -> by congruence.
      repeat split; try done.
      * simpl. by rewrite list_lookup_insert_eq.
      * unfold Student.getId in *. by rewrite Hperson.
      * by apply Hkeys.
    + exists ps, s0. repeat split; try done.
      simpl. by rewrite list_lookup_insert_ne.
  - intros ps s1 cid [Hps Hl] Hin. simpl in Hl.
    destruct (decide (ps = p)) as [->|Hne].
    + rewrite list_lookup_insert_eq in Hl by done. injection Hl as <-.
      apply Hkeys in Hin.
      destruct (Hss p s cid (conj Hps Hs) Hin) as (pc & c & Hc & Hid & Hk).
      exists pc, c. repeat split; try done; try apply Hc.
      unfold Student.getId in *. by rewrite Hperson.
    + rewrite list_lookup_insert_ne in Hl by done.
      destruct (Hss ps s1 cid (conj Hps Hl) Hin) as (pc & c & Hc & Hid & Hk).
      by exists pc, c.
Qed.

Lemma updateWAM_keeps s course_id wam :
  let s' := fst (Student.updateWAM course_id wam s) in
  Student.person s' = Student.person s /\
  (forall k, k ∈ StdMap.keys (Student.courses s') <->
             k ∈ StdMap.keys (Student.courses s)) /\
  (Student.courses s = [] -> Student.courses s' = []).
Proof.
  unfold Student.updateWAM. destruct (_ || _); [done|].
  destruct (StdMap.find course_id (Student.courses s)) eqn:Hf; [|done].
  simpl. split; [done|]. split.
  - intros k. rewrite keys_assign.
    assert (course_id ∈ StdMap.keys (Student.courses s))
      by (apply find_is_Some_keys; eauto).
    split; [intros [->|]; done | auto].
  - intros Hnil. by rewrite Hnil in Hf.
Qed.

Lemma linked_enroll student_id course_id sc h b h' out :
  linked h sc ->
  enroll_effect student_id course_id sc h b h' out ->
  linked h' sc.
Proof.
  intros Hl Heff.
  destruct Heff as [ | | ps pc s c s' c' out _ _ [Hps Hs] [Hpc Hc] Hsid Hcid _
                         Hperson Hkeys Hcid' _ Henr]; try done.
  destruct Hl as [Hwf Hfs Hfc Hcs Hss].
  assert (ps < length (student_objs h))%nat as Hlts by by eapply lookup_lt_Some.
  assert (pc < length (course_objs h))%nat as Hltc by by eapply lookup_lt_Some.
  set (h' := mkHeap _ _ _).
  assert (Student.getId s' = student_id) as Hsid'
    by (unfold Student.getId in *; by rewrite Hperson).
  (* every registered student of [h] is still there, with at least its keys *)
  assert (forall p0 s0, student_at h sc p0 s0 ->
            exists s0', student_at h' sc p0 s0' /\
              Student.getId s0' = Student.getId s0 /\
              forall k, k ∈ StdMap.keys (Student.courses s0) ->
                        k ∈ StdMap.keys (Student.courses s0')) as Hfwd_s.
  { intros p0 s0 [Hp0 Hs0]. destruct (decide (p0 = ps)) as [->|Hne].
    - exists s'. assert (s0 = s) as -> by congruence.
      repeat split; try done.
      + simpl. by rewrite list_lookup_insert_eq.
      + congruence.
      + intros k Hk. apply Hkeys. by right.
    - exists s0. repeat split; try done.
      simpl. by rewrite list_lookup_insert_ne. }
  assert (forall p0 c0, course_at h sc p0 c0 ->
            exists c0', course_at h' sc p0 c0' /\
              Course.getId c0' = Course.getId c0 /\
              forall k, k ∈ Course.enrolled_students c0 ->
                        k ∈ Course.enrolled_students c0') as Hfwd_c.
  { intros p0 c0 [Hp0 Hc0]. destruct (decide (p0 = pc)) as [->|Hne].
    - exists c'. assert (c0 = c) as -> by congruence.
      repeat split; try done.
      + simpl. by rewrite list_lookup_insert_eq.
      + intros k Hk. rewrite Henr. set_solver.
    - exists c0. repeat split; try done.
      simpl. by rewrite list_lookup_insert_ne. }
  split.
  - destruct Hwf as (Ws & Wt & Wc). repeat split; simpl; auto.
    + intros q Hq. destruct (decide (q = ps)) as [->|Hne].
      * rewrite list_lookup_insert_eq; eauto.
      * rewrite list_lookup_insert_ne; auto.
    + intros q Hq. destruct (decide (q = pc)) as [->|Hne].
      * rewrite list_lookup_insert_eq; eauto.
      * rewrite list_lookup_insert_ne; auto.
  - simpl. intros q s0 Hq Hun. destruct (decide (q = ps)) as [->|Hne]; [done|].
    rewrite list_lookup_insert_ne in Hq by done. eauto.
  - simpl. intros q c0 Hq Hun. destruct (decide (q = pc)) as [->|Hne]; [done|].
    rewrite list_lookup_insert_ne in Hq by done. eauto.
  - intros pc1 c1 sid [Hpc1 Hc1] Hin. simpl in Hc1.
    destruct (decide (pc1 = pc)) as [->|Hne].
    + rewrite list_lookup_insert_eq in Hc1 by done. injection Hc1 as <-.
      rewrite Henr in Hin. apply elem_of_union in Hin as [Hin|Hin].
      * apply elem_of_singleton in Hin as ->.
        exists ps, s'. repeat split; try done.
        -- simpl. by rewrite list_lookup_insert_eq.
        -- apply Hkeys. left. unfold Course.getId in *. congruence.
      * destruct (Hcs pc c sid (conj Hpc Hc) Hin) as (p0 & s0 & Hat & Hid & Hk).
        destruct (Hfwd_s p0 s0 Hat) as (s0' & Hat' & Hid' & Hk').
        exists p0, s0'. repeat split; try apply Hat'; [congruence|].
        apply Hk'. unfold Course.getId in *. by rewrite Hcid'.
    + rewrite list_lookup_insert_ne in Hc1 by done.
      destruct (Hcs pc1 c1 sid (conj Hpc1 Hc1) Hin)
        as (p0 & s0 & Hat & Hid & Hk).
      destruct (Hfwd_s p0 s0 Hat) as (s0' & Hat' & Hid' & Hk').
      exists p0, s0'. repeat split; try apply Hat'; [congruence|auto].
  - intros ps1 s1 cid [Hps1 Hs1] Hin. simpl in Hs1.
    destruct (decide (ps1 = ps)) as [->|Hne].
    + rewrite list_lookup_insert_eq in Hs1 by done. injection Hs1 as <-.
      apply Hkeys in Hin as [->|Hin].
      * exists pc, c'. repeat split; try done.
        -- simpl. by rewrite list_lookup_insert_eq.
        -- unfold Course.getId in *. congruence.
        -- rewrite Henr, Hsid'. set_solver.
      * destruct (Hss ps s cid (conj Hps Hs) Hin) as (p0 & c0 & Hat & Hid & Hk).
        destruct (Hfwd_c p0 c0 Hat) as (c0' & Hat' & Hid' & Hk').
        exists p0, c0'. repeat split; try apply Hat'; [congruence|].
        apply Hk'. congruence.
    + rewrite list_lookup_insert_ne in Hs1 by done.
      destruct (Hss ps1 s1 cid (conj Hps1 Hs1) Hin)
        as (p0 & c0 & Hat & Hid & Hk).
      destruct (Hfwd_c p0 c0 Hat) as (c0' & Hat' & Hid' & Hk').
      exists p0, c0'. repeat split; try apply Hat'; [congruence|auto].
Qed.

Lemma linked_step op w w' out :
  linked (heap w) (school w) ->
  step op w = Some (w', out) ->
  linked (heap w') (school w').
Proof.
  intros Hl Hstep. destruct w as [h sc]. simpl in Hl.
  destruct op; simpl in Hstep.
  - injection Hstep as <- <-. by apply linked_new_student.
  - injection Hstep as <- <-. by apply linked_new_teacher.
  - injection Hstep as <- <-. by apply linked_new_course.
  - destruct (student_objs h !! student) eqn:Hp; [|done].
    injection Hstep as <- <-. apply linked_add_student; eauto.
  - destruct (teacher_objs h !! teacher) eqn:Hp; [|done].
    injection Hstep as <- <-. apply linked_add_teacher; eauto.
  - destruct (course_objs h !! course) eqn:Hp; [|done].
    injection Hstep as <- <-. apply linked_add_course; eauto.
  - destruct (School.enrollStudentInCourse student_id course_id sc h)
      as [[[b h'] out']|] eqn:Hcall; [|done].
    injection Hstep as <- <-. simpl.
    eapply linked_enroll; eauto using enroll_cases.
  - destruct (student_objs h !! student) as [s|] eqn:Hp; [|done].
    simpl in Hstep.
    pose proof (updateWAM_keeps s course_id wam) as (Hper & Hkeys & Hnil).
    destruct (Student.updateWAM course_id wam s) as [s' out'].
    injection Hstep as <- <-. simpl in *.
    by eapply linked_update_student.
  - destruct (student_objs h !! student) as [s|] eqn:Hp; [|done].
    injection Hstep as <- <-. simpl.
    by eapply linked_update_student.
Qed.

Lemma linked_run ops w w' out :
  linked (heap w) (school w) ->
  run ops w = Some (w', out) ->
  linked (heap w') (school w').
Proof.
  revert w out. induction ops as [|op ops IH]; intros w out Hl Hrun.
  - by injection Hrun as <- <-.
  - simpl in Hrun.
    destruct (step op w) as [[w1 out1]|] eqn:Hstep; [|done].
    simpl in Hrun.
    destruct (run ops w1) as [[w2 out2]|] eqn:Hrest; [|done].
    injection Hrun as <- <-.
    eapply IH; [|done]. by eapply linked_step.
Qed.

Lemma linked_consistent h sc :
  linked h sc -> unique_ids h sc -> mutually_consistent h sc.
Proof.
  intros [_ _ _ Hcs Hss] [Hus Huc] ps s pc c Hs Hc. split.
  - intros Hin.
    destruct (Hss ps s _ Hs Hin) as (pc' & c' & Hc' & Hid & Hk).
    assert (pc' = pc) as -> by by eapply Huc.
    destruct Hc as [_ Hc], Hc' as [_ Hc']. congruence.
  - intros Hin.
    destruct (Hcs pc c _ Hc Hin) as (ps' & s' & Hs' & Hid & Hk).
    assert (ps' = ps) as -> by by eapply Hus.
    destruct Hs as [_ Hs], Hs' as [_ Hs']. congruence.
Qed.

(** C1, as the program has it: after any sequence of operations on a new
    school, if the ids of the registered students are unique and the ids of
    the registered courses are unique, then for every registered student S
    and registered course C the id of C is a key of the enrollment map of S
    if and only if the id of S is in the enrolled set of C. *)
Theorem consistent_when_ids_unique (ops : list Op) (name : string)
    (w : World) (out : list Output) :
  run ops (init_world name) = Some (w, out) ->
  unique_ids (heap w) (school w) ->
  mutually_consistent (heap w) (school w).
Proof.
  intros Hrun Hu. apply linked_consistent; [|done].
  eapply linked_run; [|done]. apply linked_init.
Qed.

Lemma consistent_when_ids_unique_witness :
  exists w out,
    run script_happy (init_world "College") = Some (w, out) /\
    mutually_consistent (heap w) (school w).
Proof.
  exists world_happy, (output_of script_happy).
  split; [vm_compute; reflexivity|].
  eapply (consistent_when_ids_unique script_happy "College").
  - vm_compute. reflexivity.
  - split; intros p1 ? p2 ? [H1 _] [H2 _] _; simpl in H1, H2;
      apply list_elem_of_singleton in H1, H2; congruence.
Defined.

(** C1 fails as stated: two student objects with the id [A] are registered
    and [A] is enrolled in [X]. The school resolves [A] to the first object;
    the second one is registered, its id is in the enrolled set of [X], and
    its enrollment map has no key [X]. *)
Lemma duplicate_id_breaks_consistency :
  exists w out,
    run script_duplicate_id (init_world "College") = Some (w, out) /\
    ~ mutually_consistent (heap w) (school w).
Proof.
  exists world_duplicate_id, (output_of script_duplicate_id).
  split; [vm_compute; reflexivity|].
  intros H.
  specialize (H 1%nat _ 0%nat _
    (conj (list_elem_of_further _ _ _ (list_elem_of_here _ _)) eq_refl)
    (conj (list_elem_of_here _ _) eq_refl)).
  apply proj2 in H. simpl in H.
  eapply elem_of_nil, H. by vm_compute.
Qed.

(** ** The capacity of a course *)

Lemma to_size_t_nonneg_le (z : Z) : 0 <= z -> to_size_t z <= z.
Proof.
  intros Hz. unfold to_size_t, size_t_bits. apply Z.mod_le; lia.
Qed.

Lemma to_size_t_int (z : Z) : int_range z -> 0 <= z -> to_size_t z = z.
Proof.
  unfold to_size_t, int_range, int_bits, size_t_bits. intros H Hz.
  apply Z.mod_small. lia.
Qed.

Lemma size_insert_le (x : string) (X : gset string) :
  (size ({[x]} ∪ X) <= S (size X))%nat.
Proof.
  rewrite size_union_alt, size_singleton.
  apply le_n_S, subseteq_size. set_solver.
Qed.

Lemma size_insert_new (x : string) (X : gset string) :
  x ∉ X -> size ({[x]} ∪ X) = S (size X).
Proof.
  intros Hx. rewrite size_union by set_solver. by rewrite size_singleton.
Qed.

Lemma within_nonneg_capacity_step op w w' out :
  within_nonneg_capacity (heap w) ->
  step op w = Some (w', out) ->
  within_nonneg_capacity (heap w').
Proof.
  intros Hinv Hstep. destruct w as [h sc]. simpl in Hinv.
  destruct op; simpl in Hstep.
  - by injection Hstep as <- <-.
  - by injection Hstep as <- <-.
  - injection Hstep as <- <-. simpl.
    intros p c [Hl|[_ Hl]]%lookup_app_Some Hcap; [eauto|].
    apply list_lookup_singleton_Some in Hl as [_ <-].
    unfold Course.new in *.
    cbn [Course.enrolled_students Course.capacity] in *.
    rewrite size_empty. lia.
  - destruct (student_objs h !! student); [|done]. by injection Hstep as <- <-.
  - destruct (teacher_objs h !! teacher); [|done]. by injection Hstep as <- <-.
  - destruct (course_objs h !! course); [|done]. by injection Hstep as <- <-.
  - destruct (School.enrollStudentInCourse student_id course_id sc h)
      as [[[b h'] out']|] eqn:Hcall; [|done].
    injection Hstep as <- <-. simpl.
    apply enroll_cases in Hcall.
    destruct Hcall as [ | | ps pc s c s' c' out' _ _ _ [_ Hc] _ _ Hlt _ _ _
                            Hcap Henr]; try done.
    intros p c0 Hl Hnn. simpl in Hl.
    destruct (decide (p = pc)) as [->|Hne].
    + rewrite list_lookup_insert_eq in Hl by by eapply lookup_lt_Some.
      injection Hl as <-. rewrite Hcap in *. rewrite Henr.
      pose proof (size_insert_le student_id (Course.enrolled_students c)).
      pose proof (to_size_t_nonneg_le _ Hnn). lia.
    + rewrite list_lookup_insert_ne in Hl by done. eauto.
  - destruct (student_objs h !! student) as [s|]; [|done]. simpl in Hstep.
    destruct (Student.updateWAM course_id wam s).
    by injection Hstep as <- <-.
  - destruct (student_objs h !! student) as [s|]; [|done].
    by injection Hstep as <- <-.
Qed.

Lemma within_nonneg_capacity_run ops w w' out :
  within_nonneg_capacity (heap w) ->
  run ops w = Some (w', out) ->
  within_nonneg_capacity (heap w').
Proof.
  revert w out. induction ops as [|op ops IH]; intros w out Hinv Hrun.
  - by injection Hrun as <- <-.
  - simpl in Hrun.
    destruct (step op w) as [[w1 out1]|] eqn:Hstep; [|done].
    simpl in Hrun.
    destruct (run ops w1) as [[w2 out2]|] eqn:Hrest; [|done].
    injection Hrun as <- <-.
    eapply IH; [|done]. by eapply within_nonneg_capacity_step.
Qed.

(** A call changes neither what the ids resolve to nor the validity of the
    handles. *)
Lemma enroll_effect_resolve student_id course_id sc h b h' out :
  enroll_effect student_id course_id sc h b h' out ->
  (forall x, resolve_student h' sc x = resolve_student h sc x) /\
  (forall x, resolve_course h' sc x = resolve_course h sc x) /\
  (wf h sc -> wf h' sc).
Proof.
  intros [ | | ps pc s c s' c' out' _ _ [_ Hs] [_ Hc] _ _ _ Hper _ Hid _ _];
    try done.
  assert (ps < length (student_objs h))%nat by by eapply lookup_lt_Some.
  assert (pc < length (course_objs h))%nat by by eapply lookup_lt_Some.
  split; [|split].
  - intros x. apply find_if_ext. intros p _. simpl.
    destruct (decide (p = ps)) as [->|Hne].
    + rewrite list_lookup_insert_eq, Hs by done. simpl.
      unfold Student.getId. by rewrite Hper.
    + by rewrite list_lookup_insert_ne.
  - intros x. apply find_if_ext. intros p _. simpl.
    destruct (decide (p = pc)) as [->|Hne].
    + rewrite list_lookup_insert_eq, Hc by done. simpl.
      unfold Course.getId. by rewrite Hid.
    + by rewrite list_lookup_insert_ne.
  - intros (Ws & Wt & Wc). repeat split; simpl; auto.
    + intros q Hq. destruct (decide (q = ps)) as [->|Hne].
      * rewrite list_lookup_insert_eq; eauto.
      * rewrite list_lookup_insert_ne; auto.
    + intros q Hq. destruct (decide (q = pc)) as [->|Hne].
      * rewrite list_lookup_insert_eq; eauto.
      * rewrite list_lookup_insert_ne; auto.
Qed.

(** An attempt on a full course returns [false] and changes nothing. *)
Lemma enroll_full student_id course_id sc h pc c :
  wf h sc ->
  resolve_course h sc course_id = Some (Some pc) ->
  course_objs h !! pc = Some c ->
  to_size_t (Course.capacity c)
    <= Z.of_nat (size (Course.enrolled_students c)) ->
  exists msg,
    School.enrollStudentInCourse student_id course_id sc h =
      Some (false, h, [Cerr msg]).
Proof.
  intros Hwf Hrc Hc Hfull.
  destruct (find_if_total (student_objs h)
    (fun s => String.eqb (Student.getId s) student_id) _ (proj1 Hwf))
    as [[ps|] Hrs].
  - destruct (resolve_student_id _ _ _ _ Hrs) as (s & [_ Hs] & _).
    rewrite (enroll_resolved _ _ _ _ _ _ _ _ Hrs Hrc Hs Hc).
    rewrite (proj2 (Z.ltb_ge _ _) Hfull). eauto.
  - unfold School.enrollStudentInCourse. rewrite Hrs. simpl.
    unfold resolve_course in Hrc. rewrite Hrc. simpl. eauto.
Qed.

Lemma enroll_effect_true student_id course_id sc h h' out :
  enroll_effect student_id course_id sc h true h' out ->
  exists (ps pc : ptr) (c : Course.t) (s' : Student.t) (c' : Course.t),
    resolve_course h sc course_id = Some (Some pc) /\
    course_objs h !! pc = Some c /\
    h' = mkHeap (<[ps := s']> (student_objs h)) (teacher_objs h)
                (<[pc := c']> (course_objs h)) /\
    Course.capacity c' = Course.capacity c /\
    Course.enrolled_students c' = {[student_id]} ∪ Course.enrolled_students c.
Proof.
  intros H. remember true as b eqn:Hb.
  destruct H as [ | | ps pc s c s' c' out _ Hrc _ [_ Hc] _ _ _ _ _ _ Hcap Henr];
    try discriminate.
  by exists ps, pc, c, s', c'.
Qed.

Lemma enroll_each_fills student_ids : forall course_id sc h pc c,
  wf h sc ->
  resolve_course h sc course_id = Some (Some pc) ->
  course_objs h !! pc = Some c ->
  int_range (Course.capacity c) ->
  NoDup student_ids ->
  (forall x, x ∈ student_ids ->
     x ∉ Course.enrolled_students c /\
     exists ps, resolve_student h sc x = Some (Some ps)) ->
  Z.of_nat (size (Course.enrolled_students c))
    + Z.of_nat (length student_ids) <= Course.capacity c ->
  exists h' out c',
    enroll_each student_ids course_id sc h =
      Some (repeat true (length student_ids), h', out) /\
    wf h' sc /\
    resolve_course h' sc course_id = Some (Some pc) /\
    course_objs h' !! pc = Some c' /\
    Course.capacity c' = Course.capacity c /\
    Course.enrolled_students c' =
      list_to_set student_ids ∪ Course.enrolled_students c /\
    size (Course.enrolled_students c') =
      (size (Course.enrolled_students c) + length student_ids)%nat.
Proof.
  induction student_ids as [|x rest IH];
    intros course_id sc h pc c Hwf Hrc Hc Hint Hnd Hids Hroom.
  - exists h, [], c. simpl. split; [done|]. split; [done|].
    split; [done|]. split; [done|]. split; [done|].
    split; [set_solver | lia].
  - apply NoDup_cons in Hnd as [Hx Hnd].
    destruct (Hids x (list_elem_of_here _ _)) as (Hxc & ps & Hrs).
    destruct (resolve_student_id _ _ _ _ Hrs) as (s & [_ Hs] & _).
    cbn [length] in Hroom.
    pose proof (enroll_resolved _ _ _ _ _ _ _ _ Hrs Hrc Hs Hc) as Hcall.
    assert (0 <= Course.capacity c) as Hnn by lia.
    rewrite (to_size_t_int _ Hint Hnn) in Hcall.
    rewrite (proj2 (Z.ltb_lt _ _)) in Hcall by lia.
    cbn [enroll_each]. rewrite Hcall. cbn [mbind option_bind].
    apply enroll_cases in Hcall.
    pose proof (enroll_effect_resolve _ _ _ _ _ _ _ Hcall)
      as (Hres_s & Hres_c & Hwf').
    remember (set_student ps _ _) as h1 eqn:Hh1. clear Hh1.
    remember (snd (Student.enroll course_id s)) as out1 eqn:Hout1. clear Hout1.
    apply enroll_effect_true in Hcall
      as (ps' & pc' & c0 & s' & c' & Hrc' & Hc0 & Hheap & Hcap' & Henr').
    assert (pc' = pc) as -> by congruence.
    assert (c0 = c) as -> by congruence.
    assert (course_objs h1 !! pc = Some c') as Hc1.
    { rewrite Hheap. simpl.
      apply list_lookup_insert_eq. by eapply lookup_lt_Some. }
    destruct (IH course_id sc h1 pc c') as (h' & out2 & c2 & Hrun & Hwf2 &
        Hrc2 & Hc2 & Hcap2 & Henr2 & Hsize2).
    + by apply Hwf'.
    + by rewrite Hres_c.
    + done.
    + by rewrite Hcap'.
    + done.
    + intros y Hy. destruct (Hids y) as (Hyc & py & Hry);
        [by apply list_elem_of_further|].
      split; [|exists py; by rewrite Hres_s].
      rewrite Henr'. set_solver.
    + rewrite Henr', size_insert_new, Hcap' by done. lia.
    + rewrite Hrun. cbn [mbind option_bind]. exists h', (out1 ++ out2), c2.
      split; [done|]. split; [done|]. split; [done|]. split; [done|].
      split; [congruence|]. split.
      * rewrite Henr2, Henr'. set_solver.
      * rewrite Hsize2, Henr', size_insert_new by done. cbn [length]. lia.
Qed.

(** C8, as the program has it: after any sequence of operations on a new
    school, every course whose capacity is not negative has at most as many
    enrolled students as its capacity. Enrolling distinct registered
    students that are not yet in a course, as many as there are free seats,
    returns [true] every time and fills the course; the next attempt on the
    course, for whatever student, returns [false] and changes nothing. *)
Theorem capacity_bound_and_filling :
  (forall ops name w out,
     run ops (init_world name) = Some (w, out) ->
     within_nonneg_capacity (heap w)) /\
  (forall student_ids course_id sc h pc c,
     wf h sc ->
     resolve_course h sc course_id = Some (Some pc) ->
     course_objs h !! pc = Some c ->
     int_range (Course.capacity c) ->
     NoDup student_ids ->
     (forall x, x ∈ student_ids ->
        x ∉ Course.enrolled_students c /\
        exists ps, resolve_student h sc x = Some (Some ps)) ->
     Z.of_nat (size (Course.enrolled_students c))
       + Z.of_nat (length student_ids) = Course.capacity c ->
     exists h' out c',
       enroll_each student_ids course_id sc h =
         Some (repeat true (length student_ids), h', out) /\
       course_objs h' !! pc = Some c' /\
       Course.enrolled_students c' =
         list_to_set student_ids ∪ Course.enrolled_students c /\
       Z.of_nat (size (Course.enrolled_students c')) = Course.capacity c' /\
       forall student_id, exists msg,
         School.enrollStudentInCourse student_id course_id sc h' =
           Some (false, h', [Cerr msg])).
Proof.
  split.
  - intros ops name w out Hrun.
    eapply within_nonneg_capacity_run; [|done].
    intros p c Hc. simpl in Hc. by rewrite lookup_nil in Hc.
  - intros student_ids course_id sc h pc c Hwf Hrc Hc Hint Hnd Hids Hroom.
    destruct (enroll_each_fills student_ids course_id sc h pc c)
      as (h' & out & c' & Hrun & Hwf' & Hrc' & Hc' & Hcap & Henr & Hsize);
      try done; [lia|].
    exists h', out, c'. repeat split; try done.
    + rewrite Hsize, Hcap. lia.
    + intros student_id. eapply enroll_full; try done.
      assert (0 <= Course.capacity c') as Hnn by lia.
      rewrite to_size_t_int; [lia | by rewrite Hcap | done].
Qed.

Lemma heap_AB_X_wf : wf heap_AB_X school_two_one.
Proof.
  repeat split; simpl; intros p Hp; try by apply elem_of_nil in Hp.
  - apply elem_of_cons in Hp as [->|Hp]; [eauto|].
    apply list_elem_of_singleton in Hp as ->; eauto.
  - apply list_elem_of_singleton in Hp as ->; eauto.
Qed.

Lemma capacity_bound_and_filling_witness :
  (exists w out,
     run script_happy (init_world "College") = Some (w, out) /\
     within_nonneg_capacity (heap w)) /\
  (exists h' out,
     enroll_each ["A"%string] "X" school_two_one heap_AB_X =
       Some ([true], h', out) /\
     exists msg,
       School.enrollStudentInCourse "B" "X" school_two_one h' =
         Some (false, h', [Cerr msg])).
Proof.
  split.
  - exists world_happy, (output_of script_happy).
    split; [vm_compute; reflexivity|].
    eapply (proj1 capacity_bound_and_filling script_happy "College").
    vm_compute. reflexivity.
  - destruct (proj2 capacity_bound_and_filling ["A"%string] "X"%string
                school_two_one heap_AB_X 0%nat
                (Course.new "X" "Logic" 3 1))
      as (h' & out & c' & Hrun & _ & _ & _ & Hnext).
    + apply heap_AB_X_wf.
    + reflexivity.
    + reflexivity.
    + unfold int_range, int_bits. simpl. lia.
    + apply NoDup_singleton.
    + intros x ->%list_elem_of_singleton. split.
      * simpl. apply not_elem_of_empty.
      * exists 0%nat. reflexivity.
    + reflexivity.
    + exists h', out. split; [exact Hrun | apply Hnext].
Defined.

(** C8 fails as stated: a course may be constructed with a negative
    capacity. The comparison [enrolled_students.size() < capacity] converts
    -1 to the largest [size_t], the enrollment is accepted, and the course
    of capacity -1 ends with one enrolled student. *)
Lemma negative_capacity_exceeded :
  exists w out,
    run script_negative_capacity (init_world "College") = Some (w, out) /\
    ~ within_capacity (heap w).
Proof.
  exists world_negative_capacity, (output_of script_negative_capacity).
  split; [vm_compute; reflexivity|].
  intros H. specialize (H 0%nat _ eq_refl). vm_compute in H. by apply H.
Qed.

(** C4 fails as stated: a second student object with the id [S001] is
    registered while the first one is in the collection. The call does not
    fail, and the collection grows to two handles whose objects carry the
    same id. *)
Lemma duplicate_registration_accepted :
  exists w',
    step (AddStudent 1%nat) (mkWorld heap_twice_S001 school_first_S001)
      = Some (w', []) /\
    School.students (school w') = [0%nat; 1%nat] /\
    School.students (school w') <> School.students school_first_S001 /\
    (Student.getId <$> student_objs (heap w') !! 0%nat) = Some "S001"%string /\
    (Student.getId <$> student_objs (heap w') !! 1%nat) = Some "S001"%string.
Proof.
  exists (mkWorld heap_twice_S001 (School.addStudent 1%nat school_first_S001)).
  repeat split. discriminate.
Qed.

(** ** std::sort and the ranking *)

Section StrictWeakOrder.
Context {A : Type} (comp : A -> A -> bool) (L : list A).
Hypothesis Hswo : strict_weak_order comp L.

Lemma swo_asym a b :
  In a L -> In b L -> comp a b = true -> comp b a = false.
Proof.
  intros Ha Hb Hab. destruct (comp b a) eqn:Hba; [|done].
  pose proof (swo_trans _ _ Hswo a b a Ha Hb Ha Hab Hba) as Haa.
  rewrite (swo_irrefl _ _ Hswo a Ha) in Haa. done.
Qed.

Lemma swo_neg_trans a b c :
  In a L -> In b L -> In c L ->
  comp a b = false -> comp b c = false -> comp a c = false.
Proof.
  intros Ha Hb Hc Hab Hbc. destruct (comp a c) eqn:Hac; [|done].
  destruct (comp b a) eqn:Hba.
  { pose proof (swo_trans _ _ Hswo b a c Hb Ha Hc Hba Hac). congruence. }
  destruct (comp c b) eqn:Hcb.
  { pose proof (swo_trans _ _ Hswo a c b Ha Hc Hb Hac Hcb). congruence. }
  destruct (swo_equiv_trans _ _ Hswo a b c Ha Hb Hc Hab Hba Hbc Hcb).
  congruence.
Qed.

Lemma linear_insert_perm val before :
  Permutation (val :: before) (linear_insert comp val before).
Proof.
  induction before as [|next before IH]; simpl; [done|].
  destruct (comp val next); [|done].
  rewrite <- IH. apply perm_swap.
Qed.

Lemma linear_insert_sorted val before :
  In val L -> (forall y, In y before -> In y L) ->
  StronglySorted (behind comp) before ->
  StronglySorted (behind comp) (linear_insert comp val before).
Proof.
  intros Hval Hin Hs. induction Hs as [|next before Hs IH Hnext]; simpl.
  - repeat constructor.
  - assert (In next L) as HnL by (apply Hin; by left).
    assert (forall z, In z before -> In z L) as Hin'
      by (intros; apply Hin; by right).
    destruct (comp val next) eqn:Hvn.
    + constructor; [by apply IH|].
      rewrite <- linear_insert_perm.
      constructor; [by apply swo_asym | done].
    + constructor; [by constructor|].
      constructor; [done|].
      rewrite Forall_forall in *. intros z Hz.
      apply list_elem_of_In in Hz as HzIn.
      apply (swo_neg_trans val next z); auto. by apply Hnext.
Qed.

Lemma sorted_snoc (R : A -> A -> Prop) l x :
  StronglySorted R l -> Forall (fun y => R y x) l ->
  StronglySorted R (l ++ [x]).
Proof.
  intros Hs Hx. induction Hs as [|a l Hs IH Ha]; simpl.
  - repeat constructor.
  - apply Forall_cons in Hx as [Hax Hx].
    constructor; [by apply IH|].
    apply Forall_app. split; [done|]. by constructor.
Qed.

Lemma sorted_rev (R : A -> A -> Prop) l :
  StronglySorted R l -> StronglySorted (fun a b => R b a) (rev l).
Proof.
  intros Hs. induction Hs as [|a l Hs IH Ha]; simpl; [constructor|].
  apply sorted_snoc; [done|].
  apply Forall_forall. intros y Hy. rewrite Forall_forall in Ha.
  apply Ha. apply list_elem_of_In. apply in_rev. by apply list_elem_of_In.
Qed.

Lemma sorted_last before first :
  (forall y, In y before -> In y L) ->
  StronglySorted (behind comp) before -> last before = Some first ->
  forall y, In y before -> comp y first = false.
Proof.
  intros Hin Hs. induction Hs as [|a l Hs IH Ha]; [done|].
  intros Hlast y Hy. destruct l as [|b l].
  - injection Hlast as <-. destruct Hy as [<-|[]].
    apply (swo_irrefl _ _ Hswo). apply Hin. by left.
  - change (last (a :: b :: l)) with (last (b :: l)) in Hlast.
    destruct Hy as [<-|Hy].
    + rewrite Forall_forall in Ha. apply Ha.
      apply last_Some_elem_of in Hlast. done.
    + apply IH; auto. intros z Hz. apply Hin. by right.
Qed.

Lemma insert_step_perm before val :
  Permutation (val :: before) (insert_step comp before val).
Proof.
  unfold insert_step. destruct (last before) as [first|] eqn:Hlast.
  - destruct (comp val first).
    + apply Permutation_cons_append.
    + apply linear_insert_perm.
  - apply last_None in Hlast as ->. done.
Qed.

Lemma insert_step_sorted before val :
  In val L -> (forall y, In y before -> In y L) ->
  StronglySorted (behind comp) before ->
  StronglySorted (behind comp) (insert_step comp before val).
Proof.
  intros Hval Hin Hs. unfold insert_step.
  destruct (last before) as [first|] eqn:Hlast; [|repeat constructor].
  destruct (comp val first) eqn:Hvf; [|by apply linear_insert_sorted].
  apply sorted_snoc; [done|]. apply Forall_forall. intros y Hy.
  apply list_elem_of_In in Hy.
  pose proof (sorted_last before first Hin Hs Hlast y Hy) as Hyf.
  unfold behind. destruct (comp y val) eqn:Hyv; [|done].
  assert (In first L) as HfL.
  { apply Hin. apply list_elem_of_In. by apply last_Some_elem_of. }
  pose proof (swo_trans _ _ Hswo y val first (Hin y Hy) Hval HfL Hyv Hvf).
  congruence.
Qed.

Lemma insertion_sort_loop rest : forall before,
  (forall y, In y rest \/ In y before -> In y L) ->
  StronglySorted (behind comp) before ->
  Permutation (rest ++ before) (fold_left (insert_step comp) rest before) /\
  StronglySorted (behind comp) (fold_left (insert_step comp) rest before).
Proof.
  induction rest as [|val rest IH]; intros before Hin Hs; simpl; [done|].
  destruct (IH (insert_step comp before val)) as [Hp Hs'].
  - intros y [Hy|Hy]; [apply Hin; left; by right|].
    apply (Permutation_in _ (Permutation_sym (insert_step_perm before val)))
      in Hy.
    destruct Hy as [<-|Hy]; apply Hin; [left; by left | by right].
  - apply insert_step_sorted; auto.
    apply Hin. left. by left.
  - split; [|done]. rewrite <- Hp, <- insert_step_perm.
    by rewrite Permutation_middle.
Qed.
End StrictWeakOrder.

Lemma insertion_sort_contract {A : Type} :
  std_sort_contract (@insertion_sort A).
Proof.
  intros comp l Hswo. destruct l as [|first rest]; [by split; constructor|].
  unfold insertion_sort.
  destruct (insertion_sort_loop comp (first :: rest) Hswo rest [first])
    as [Hp Hs].
  - intros y [Hy|[<-|[]]]; [by right | by left].
  - repeat constructor.
  - split.
    + rewrite <- Permutation_rev, <- Hp.
      rewrite Permutation_app_comm. done.
    + by apply (sorted_rev (behind comp)).
Qed.

(** On a range of at most 16 elements [std::sort] is the insertion
    sort. *)
Lemma std_sort_small {A : Type} (comp : A -> A -> bool) (l : list A) :
  (length l <= 16)%nat -> std_sort comp l = insertion_sort comp l.
Proof.
  intros Hlen. unfold std_sort, Libstdcxx.sort.
  destruct (Z.eqb_spec 0 (Z.of_nat (length l))) as [H0|H0].
  - by destruct l.
  - assert ((Libstdcxx.S_threshold <? Z.of_nat (length l)) = false) as Hs
      by (unfold Libstdcxx.S_threshold; lia).
    assert (forall d, Libstdcxx.introsort_loop comp d 0
                        (Z.of_nat (length l)) l = Some l) as ->.
    { intros d. destruct d; simpl; by rewrite Z.sub_0_r, Hs. }
    simpl. unfold Libstdcxx.final_insertion_sort. by rewrite Hs.
Qed.

Lemma by_wam_descending_swo (l : list School.performer) :
  (forall p, In p l -> Float32.is_nan (snd p) = false) ->
  strict_weak_order School.by_wam_descending l.
Proof.
  intros Hnan. unfold School.by_wam_descending. split.
  - intros a _. apply ltb_irrefl.
  - intros a b c _ _ _ Hab Hbc. by apply (ltb_trans _ (snd b)).
  - intros a b c _ Hb _ Hab Hba Hbc Hcb.
    split; apply (ltb_neg_trans _ (snd b)); auto.
Qed.

Lemma sorted_by_wam_descending (l : list School.performer) :
  (forall p, In p l -> Float32.is_nan (snd p) = false) ->
  StronglySorted (fun a b => School.by_wam_descending b a = false) l ->
  StronglySorted (fun a b => Float32.leb (snd b) (snd a) = true) l.
Proof.
  intros Hnan Hs. induction Hs as [|a l Hs IH Ha]; constructor.
  - apply IH. intros p Hp. apply Hnan. by right.
  - rewrite Forall_forall in *. intros b Hb.
    apply list_elem_of_In in Hb as Hb'.
    rewrite leb_negb_ltb; [|apply Hnan; by right|apply Hnan; by left].
    unfold School.by_wam_descending in Ha. by rewrite (Ha b Hb).
Qed.

Lemma collect_performers_students (sc : School.t) (h : Heap)
    (ss : list Student.t) :
  Forall2 (fun p s => student_objs h !! p = Some s) (School.students sc) ss ->
  School.collect_performers sc h =
    Some (map (fun s => (Student.getName s, Student.overallWAM s)) ss).
Proof.
  intros H. unfold School.collect_performers. apply mapM_Some.
  induction H as [|p s ps ss Hp _ IH]; simpl; constructor; [|done].
  by rewrite Hp.
Qed.

(** C3, as the program has it: for an [int] [n] that is not negative, and
    when no overall WAM is NaN, [getTopPerformers(n)] returns the first
    [min(n, |students|)] entries of a rearrangement of the (name, overall
    WAM) pairs of the registered students that is sorted non-increasingly
    by WAM. When [n] is at least the number of students it returns the
    whole rearrangement, and for [n = 0] the empty sequence. Nothing is
    said on the order of students with equal WAM. *)
Theorem getTopPerformers_sorted_prefix
    (sort : (School.performer -> School.performer -> bool) ->
            list School.performer -> list School.performer)
    (n : Z) (sc : School.t) (h : Heap) (ss : list Student.t) :
  let performers :=
    map (fun s => (Student.getName s, Student.overallWAM s)) ss in
  std_sort_contract sort ->
  Forall2 (fun p s => student_objs h !! p = Some s) (School.students sc) ss ->
  (forall s, s ∈ ss -> Float32.is_nan (Student.overallWAM s) = false) ->
  int_range n -> 0 <= n ->
  exists top rest,
    School.getTopPerformers sort n sc h = Some top /\
    Permutation performers (top ++ rest) /\
    StronglySorted (fun a b => Float32.leb (snd b) (snd a) = true)
      (top ++ rest) /\
    length top = Nat.min (Z.to_nat n) (length (School.students sc)) /\
    (Z.of_nat (length (School.students sc)) <= n -> rest = []) /\
    (n = 0 -> top = []).
Proof.
  intros performers Hsort Hss Hnan Hint Hn.
  assert (forall p, In p performers -> Float32.is_nan (snd p) = false) as Hnan'.
  { intros p Hp. apply in_map_iff in Hp as (s & <- & Hs). simpl.
    apply Hnan. by apply list_elem_of_In. }
  destruct (Hsort School.by_wam_descending performers
              (by_wam_descending_swo _ Hnan')) as [Hperm Hsorted].
  set (sorted := sort School.by_wam_descending performers) in *.
  assert (length sorted = length (School.students sc)) as Hlen.
  { rewrite <- (Permutation_length Hperm). unfold performers.
    rewrite length_map. symmetry. by eapply Forall2_length. }
  unfold School.getTopPerformers.
  rewrite (collect_performers_students _ _ _ Hss). simpl.
  fold performers. fold sorted.
  assert (to_size_t n = n) as -> by by apply to_size_t_int.
  set (n' := if n >? Z.of_nat (length sorted)
             then to_int (Z.of_nat (length sorted)) else n).
  assert (0 <= n' /\ Z.to_nat n' = Nat.min (Z.to_nat n) (length sorted))
    as [Hn' Hmin].
  { unfold n'. destruct (Z.gtb_spec n (Z.of_nat (length sorted))) as [Hgt|Hle].
    - assert (to_int (Z.of_nat (length sorted)) = Z.of_nat (length sorted))
        as ->.
      { unfold to_int, int_range, int_bits in *.
        rewrite Z.mod_small; lia. }
      lia.
    - lia. }
  rewrite (proj2 (Z.ltb_ge _ _) Hn').
  exists (take (Z.to_nat n') sorted), (drop (Z.to_nat n') sorted).
  rewrite take_drop. repeat split; try done.
  - apply sorted_by_wam_descending; [|done].
    intros p Hp. apply Hnan'. by apply (Permutation_in _ (Permutation_sym Hperm)).
  - rewrite length_take, Hmin, Hlen. lia.
  - intros Hall. apply drop_ge. lia.
  - intros ->. rewrite Hmin. reflexivity.
Qed.

Lemma getTopPerformers_sorted_prefix_witness :
  exists top rest,
    School.getTopPerformers insertion_sort 2 school_ABC heap_ABC = Some top /\
    Permutation
      [("A"%string, Float32.of_Z 80); ("B"%string, Float32.of_Z 80);
       ("C"%string, Float32.of_Z 70)]
      (top ++ rest) /\
    length top = 2%nat.
Proof.
  destruct (getTopPerformers_sorted_prefix insertion_sort 2 school_ABC
              heap_ABC
              [student_with_score "A" 80; student_with_score "B" 80;
               student_with_score "C" 70])
    as (top & rest & Hcall & Hperm & _ & Hlen & _).
  - apply insertion_sort_contract.
  - repeat constructor.
  - intros s Hs. repeat (apply elem_of_cons in Hs as [->|Hs]; [reflexivity|]).
    by apply elem_of_nil in Hs.
  - unfold int_range, int_bits. simpl. lia.
  - lia.
  - exists top, rest. repeat split; [exact Hcall|exact Hperm|exact Hlen].
Defined.

(** C3 fails as stated. Seventeen students without a score all have the
    overall WAM [0.0f]. On more than 16 elements [std::sort] partitions
    the range, which moves equal elements past one another:
    [getTopPerformers(2)] returns [S09] and [S17] and not the two students
    registered first, and the whole ranking is not in registration order.
    And for [n = -1] the comparison [n > performers.size()] converts [n]
    to the largest [size_t], so the call returns all students and not the
    empty sequence. *)
Lemma ranking_ties_and_negative_n :
  let tied := map (fun name : string => (name, Float32.zero)) in
  let shuffled :=
    ["S09"; "S17"; "S16"; "S15"; "S14"; "S13"; "S12"; "S11"; "S10"; "S01";
     "S08"; "S07"; "S06"; "S05"; "S04"; "S03"; "S02"]%string in
  Libstdcxx.sort School.by_wam_descending (tied names_17)
    = Some (tied shuffled) /\
  School.getTopPerformers std_sort 2 school_17 heap_17 =
    Some (tied ["S09"; "S17"]%string) /\
  School.getTopPerformers std_sort 17 school_17 heap_17 =
    Some (tied shuffled) /\
  School.getTopPerformers std_sort (-1) school_17 heap_17 =
    Some (tied shuffled) /\
  School.getTopPerformers std_sort (-1) school_ABC heap_ABC =
    Some [("A"%string, Float32.of_Z 80); ("B"%string, Float32.of_Z 80);
          ("C"%string, Float32.of_Z 70)].
Proof. repeat split; vm_compute; reflexivity. Qed.

(** ** Grade levels *)

Lemma grade_print_parse :
  (forall g, stringToGradeLevel (gradeLevelToString g) = Ok g) /\
  (forall str g,
     stringToGradeLevel str = Ok g -> gradeLevelToString g = str).
Proof.
  split.
  - by intros [].
  - intros str g. unfold stringToGradeLevel.
    destruct (String.eqb_spec str "FRESHMAN") as [->|_];
      [by intros [= <-]|].
    destruct (String.eqb_spec str "SOPHOMORE") as [->|_];
      [by intros [= <-]|].
    destruct (String.eqb_spec str "JUNIOR") as [->|_];
      [by intros [= <-]|].
    destruct (String.eqb_spec str "SENIOR") as [->|_];
      [by intros [= <-]|].
    done.
Qed.

(** X1: printing a grade level and parsing it back gives the level, and a
    string that parses to a level is the printed form of that level. *)
Theorem gradeLevel_roundtrip :
  (forall g, stringToGradeLevel (gradeLevelToString g) = Ok g) /\
  (forall str g,
     stringToGradeLevel str = Ok g -> gradeLevelToString g = str).
Proof. exact (grade_print_parse). Qed.

Lemma gradeLevel_roundtrip_witness :
  gradeLevelToString JUNIOR = "JUNIOR"%string.
Proof.
  apply (proj2 gradeLevel_roundtrip "JUNIOR"%string JUNIOR). reflexivity.
Defined.

(** X2: a string that is not one of the four upper-case names makes
    [stringToGradeLevel] throw a [runtime_error] that quotes the string;
    the comparison is exact, so a name in lower case or with a blank
    around it is refused. *)
Theorem stringToGradeLevel_unknown (str : string) :
  (forall g, str <> gradeLevelToString g) ->
  stringToGradeLevel str =
    Throw (runtime_error ("Invalid grade level: " +:+ str)).
Proof.
  intros H. unfold stringToGradeLevel.
  destruct (String.eqb_spec str "FRESHMAN") as [E|_];
    [destruct (H FRESHMAN E)|].
  destruct (String.eqb_spec str "SOPHOMORE") as [E|_];
    [destruct (H SOPHOMORE E)|].
  destruct (String.eqb_spec str "JUNIOR") as [E|_];
    [destruct (H JUNIOR E)|].
  destruct (String.eqb_spec str "SENIOR") as [E|_];
    [destruct (H SENIOR E)|].
  reflexivity.
Qed.

Lemma stringToGradeLevel_unknown_witness :
  stringToGradeLevel "junior" =
    Throw (runtime_error "Invalid grade level: junior") /\
  stringToGradeLevel "SENIOR " =
    Throw (runtime_error "Invalid grade level: SENIOR ").
Proof.
  split.
  - apply (stringToGradeLevel_unknown "junior"). by intros [].
  - apply (stringToGradeLevel_unknown "SENIOR "). by intros [].
Defined.

(** ** Student::enroll and Student::updateWAM, continued *)

Lemma elem_of_assign {V : Type} (k k' : string) (v v' : V)
    (m : StdMap.t V) :
  (k', v') ∈ StdMap.assign k v m -> (k', v') = (k, v) \/ (k', v') ∈ m.
Proof.
  induction m as [|[k0 v0] m IH]; simpl.
  - intros ->%list_elem_of_singleton. by left.
  - destruct (String.compare k k0).
    + intros [->|H]%elem_of_cons; [by left|].
      right. by apply list_elem_of_further.
    + intros [->|H]%elem_of_cons; [by left | by right].
    + intros [->|H]%elem_of_cons; [right; apply list_elem_of_here|].
      destruct (IH H) as [->|H']; [by left|].
      right. by apply list_elem_of_further.
Qed.

Lemma find_Some_elem_of {V : Type} (k : string) (v : V) (m : StdMap.t V) :
  StdMap.find k m = Some v -> (k, v) ∈ m.
Proof.
  induction m as [|[k0 v0] m IH]; simpl; [done|].
  destruct (String.eqb_spec k k0) as [->|_].
  - intros [= ->]. apply list_elem_of_here.
  - intros H. apply list_elem_of_further. auto.
Qed.

(** X3: [Student::enroll] on a course that is in the enrollment map already
    does nothing: the student, the score of the course included, is as
    before and [notify] is not called. In particular the second of two
    calls for the same course has no effect. *)
Theorem Student_enroll_idempotent (course_id : string) (s : Student.t) :
  (forall slot, StdMap.find course_id (Student.courses s) = Some slot ->
     Student.enroll course_id s = (s, [])) /\
  Student.enroll course_id (fst (Student.enroll course_id s)) =
    (fst (Student.enroll course_id s), []).
Proof.
  split.
  - intros slot H. unfold Student.enroll. by rewrite H.
  - unfold Student.enroll at 2 3.
    destruct (StdMap.find course_id (Student.courses s)) eqn:H; simpl.
    + unfold Student.enroll. by rewrite H.
    + unfold Student.enroll. simpl. by rewrite find_assign_eq.
Qed.

Lemma Student_enroll_idempotent_witness :
  Student.enroll "CS101" student_S001_scored = (student_S001_scored, []).
Proof.
  apply (proj1 (Student_enroll_idempotent "CS101" student_S001_scored)
           (Some (Float32.of_Z 80))).
  reflexivity.
Defined.

(** X4: [updateWAM] for a course that is not in the enrollment map leaves the
    student as it was, whatever the score, and does not call [notify]; it
    never adds a course to the map. *)
Theorem updateWAM_not_enrolled (course_id : string) (wam : float)
    (s : Student.t) :
  StdMap.find course_id (Student.courses s) = None ->
  fst (Student.updateWAM course_id wam s) = s /\
  forall ev receivers,
    Notify ev receivers ∉ snd (Student.updateWAM course_id wam s).
Proof.
  intros H. unfold Student.updateWAM. rewrite H.
  destruct (_ || _); simpl; (split; [done|]); intros ev rs Hin.
  - by apply list_elem_of_singleton in Hin.
  - by apply elem_of_nil in Hin.
Qed.

Lemma updateWAM_not_enrolled_witness :
  fst (Student.updateWAM "PD101" (Float32.of_Z 75) student_S001)
    = student_S001.
Proof.
  apply (updateWAM_not_enrolled "PD101" (Float32.of_Z 75) student_S001).
  reflexivity.
Defined.

(** X5: the events of one course chain: of two score updates that pass the
    guard, the second one notifies with the score of the first one as the
    old value, and it does so also when the two scores are equal. *)
Theorem updateWAM_events_chain (course_id : string) (wam1 wam2 : float)
    (s : Student.t) :
  course_id ∈ StdMap.keys (Student.courses s) ->
  guard_passed wam1 -> guard_passed wam2 ->
  snd (Student.updateWAM course_id wam2
         (fst (Student.updateWAM course_id wam1 s))) =
    [Notify (mkScoreEvent (Student.getId s) course_id (Some wam1) wam2)
            (Observable.observers (Student.observable s))].
Proof.
  intros Hin [G1 G1'] [G2 G2'].
  apply find_is_Some_keys in Hin as [old Hold].
  rewrite (updateWAM_accepted course_id wam1) by (by rewrite G1, G1').
  rewrite Hold. simpl.
  rewrite (updateWAM_accepted course_id wam2) by (by rewrite G2, G2').
  simpl. by rewrite find_assign_eq.
Qed.

Lemma updateWAM_events_chain_witness :
  snd (Student.updateWAM "CS101" (Float32.of_Z 90)
         (fst (Student.updateWAM "CS101" (Float32.of_Z 80) student_S001))) =
    [Notify (mkScoreEvent "S001" "CS101" (Some (Float32.of_Z 80))
               (Float32.of_Z 90)) []].
Proof.
  apply (updateWAM_events_chain "CS101" (Float32.of_Z 80) (Float32.of_Z 90)
           student_S001).
  - apply list_elem_of_here.
  - split; reflexivity.
  - split; reflexivity.
Defined.

(** X6: an observer added to a student is notified after the observers that
    were there before it, which are notified as before. *)
Theorem addObserver_notified_last (observer : ptr) (course_id : string)
    (wam : float) (slot : option float) (s : Student.t) :
  StdMap.find course_id (Student.courses s) = Some slot ->
  guard_passed wam ->
  snd (Student.updateWAM course_id wam (Student.addObserver observer s)) =
    [Notify (mkScoreEvent (Student.getId s) course_id slot wam)
            (Observable.observers (Student.observable s) ++ [observer])].
Proof.
  intros Hf [G G'].
  rewrite updateWAM_accepted by (by rewrite G, G').
  simpl. by rewrite Hf.
Qed.

Lemma addObserver_notified_last_witness :
  snd (Student.updateWAM "CS101" (Float32.of_Z 90)
         (Student.addObserver 7%nat
            (Student.addObserver 4%nat student_S001_scored))) =
    [Notify (mkScoreEvent "S001" "CS101" (Some (Float32.of_Z 80))
               (Float32.of_Z 90)) [4%nat; 7%nat]].
Proof.
  apply (addObserver_notified_last 7%nat "CS101" (Float32.of_Z 90)
           (Some (Float32.of_Z 80))
           (Student.addObserver 4%nat student_S001_scored)).
  - reflexivity.
  - split; reflexivity.
Defined.
(** ** Invariants of the students of a store *)

Lemma string_compare_lt_trans (a b c : string) :
  String.compare a b = Lt -> String.compare b c = Lt ->
  String.compare a c = Lt.
Proof.
  revert b c. induction a as [|x a IH]; intros [|y b] [|z c]; simpl;
    try done.
  unfold Ascii.compare.
  destruct (N.compare_spec (N_of_ascii x) (N_of_ascii y)) as [Exy|Lxy|Gxy];
    try done;
  destruct (N.compare_spec (N_of_ascii y) (N_of_ascii z)) as [Eyz|Lyz|Gyz];
    try done; intros H1 H2.
  - rewrite Exy, Eyz, N.compare_refl. eauto.
  - rewrite Exy. by rewrite (proj2 (N.compare_lt_iff _ _) Lyz).
  - rewrite <- Eyz. by rewrite (proj2 (N.compare_lt_iff _ _) Lxy).
  - assert (N_of_ascii x < N_of_ascii z)%N as L by lia.
    by rewrite (proj2 (N.compare_lt_iff _ _) L).
Qed.

Lemma string_compare_refl (a : string) : String.compare a a = Eq.
Proof.
  destruct (String.compare a a) eqn:E; [done| |];
    pose proof (String.compare_antisym a a) as A; rewrite E in A; done.
Qed.

Lemma assign_ascending {V : Type} (k : string) (v : V) (m : StdMap.t V) :
  ascending_keys m -> ascending_keys (StdMap.assign k v m).
Proof.
  unfold ascending_keys, StdMap.keys.
  induction m as [|[k0 v0] m IH]; simpl; intros Hs.
  - repeat constructor.
  - apply StronglySorted_inv in Hs as [Hs Hall].
    destruct (String.compare k k0) eqn:Hc; simpl.
    + apply String.compare_eq_iff in Hc as ->. by constructor.
    + constructor; [by constructor|].
      constructor; [done|].
      eapply Forall_impl; [exact Hall|]. simpl.
      intros k1 H1. by eapply string_compare_lt_trans.
    + constructor; [by apply IH|].
      apply Forall_forall. intros k1 Hk1.
      apply (keys_assign k k1 v m) in Hk1 as [->|Hk1].
      * rewrite String.compare_antisym, Hc. done.
      * rewrite Forall_forall in Hall. by apply Hall.
Qed.

Lemma ascending_keys_NoDup {V : Type} (m : StdMap.t V) :
  ascending_keys m -> NoDup (StdMap.keys m).
Proof.
  unfold ascending_keys. induction 1 as [|k ks Hs IH Hall].
  - constructor.
  - constructor; [|done]. intros Hin.
    rewrite Forall_forall in Hall. specialize (Hall k Hin).
    by rewrite string_compare_refl in Hall.
Qed.

(** The students of the store after a call are those before it, except
    that the call may have run [Student::enroll] on one of them; likewise
    for the courses and [Course::enrollStudent]. *)
Lemma enroll_shape student_id course_id sc h b h' out :
  School.enrollStudentInCourse student_id course_id sc h = Some (b, h', out) ->
  teacher_objs h' = teacher_objs h /\
  (forall p s', student_objs h' !! p = Some s' ->
     exists s, student_objs h !! p = Some s /\
       (s' = s \/ s' = fst (Student.enroll course_id s))) /\
  (forall p c', course_objs h' !! p = Some c' ->
     exists c, course_objs h !! p = Some c /\
       (c' = c \/ c' = snd (Course.enrollStudent student_id c))).
Proof.
  intros Hcall.
  assert (teacher_objs h = teacher_objs h /\
    (forall p s', student_objs h !! p = Some s' ->
       exists s, student_objs h !! p = Some s /\
         (s' = s \/ s' = fst (Student.enroll course_id s))) /\
    (forall p c', course_objs h !! p = Some c' ->
       exists c, course_objs h !! p = Some c /\
         (c' = c \/ c' = snd (Course.enrollStudent student_id c)))) as Hsame
    by (repeat split; eauto).
  destruct (resolve_student h sc student_id) as [[ps|]|] eqn:Hrs;
    unfold School.enrollStudentInCourse, resolve_student in *;
    rewrite Hrs in Hcall; simpl in Hcall; [| |done].
  2: { destruct (find_if (course_objs h) _ _); [|done].
       by injection Hcall as <- <- <-. }
  destruct (resolve_course h sc course_id) as [[pc|]|] eqn:Hrc;
    unfold resolve_course in *; rewrite Hrc in Hcall; simpl in Hcall;
    [| |done].
  2: { by injection Hcall as <- <- <-. }
  destruct (course_objs h !! pc) as [c|] eqn:Hc; [|done]. simpl in Hcall.
  destruct (Course.enrollStudent student_id c) as [enrolled c'] eqn:Hen.
  destruct enrolled.
  - simpl in Hcall.
    destruct (student_objs h !! ps) as [s|] eqn:Hs; [|done]. simpl in Hcall.
    destruct (Student.enroll course_id s) as [s1 out1] eqn:Hse.
    injection Hcall as <- <- <-. simpl.
    split; [done|]. split.
    + intros p s' Hl. destruct (decide (p = ps)) as [->|Hne].
      * rewrite list_lookup_insert_eq in Hl by by eapply lookup_lt_Some.
        injection Hl as <-. exists s. split; [done|]. right.
        by rewrite Hse.
      * rewrite list_lookup_insert_ne in Hl by done. eauto.
    + intros p c1 Hl. destruct (decide (p = pc)) as [->|Hne].
      * rewrite list_lookup_insert_eq in Hl by by eapply lookup_lt_Some.
        injection Hl as <-. exists c. split; [done|]. right.
        by rewrite Hen.
      * rewrite list_lookup_insert_ne in Hl by done. eauto.
  - injection Hcall as <- <- <-.
    unfold Course.enrollStudent in Hen. destruct (_ <? _); [done|].
    injection Hen as <-. by rewrite set_course_same.
Qed.

(** A property of students that the constructor establishes and the three
    mutating methods keep holds of every student a client can reach. *)
Lemma run_student_invariant (P : Student.t -> Prop) :
  (forall id name email address grade_level now,
     P (Student.new id name email address grade_level now)) ->
  (forall course_id s, P s -> P (fst (Student.enroll course_id s))) ->
  (forall course_id wam s,
     P s -> P (fst (Student.updateWAM course_id wam s))) ->
  (forall observer s, P s -> P (Student.addObserver observer s)) ->
  forall ops w w' out,
    (forall p s, student_objs (heap w) !! p = Some s -> P s) ->
    run ops w = Some (w', out) ->
    forall p s, student_objs (heap w') !! p = Some s -> P s.
Proof.
  intros Hnew Henroll Hupdate Hobs.
  induction ops as [|op ops IH]; intros w w' out Hinv Hrun.
  { by injection Hrun as <- <-. }
  simpl in Hrun.
  destruct (step op w) as [[w1 out1]|] eqn:Hstep; [|done]. simpl in Hrun.
  destruct (run ops w1) as [[w2 out2]|] eqn:Hrest; [|done].
  injection Hrun as <- <-. eapply IH; [|done].
  clear IH Hrest. destruct w as [h sc]. simpl in Hinv.
  destruct op; simpl in Hstep.
  - injection Hstep as <- <-. simpl.
    intros p s [Hl|[_ Hl]]%lookup_app_Some; [eauto|].
    apply list_lookup_singleton_Some in Hl as [_ <-]. apply Hnew.
  - by injection Hstep as <- <-.
  - by injection Hstep as <- <-.
  - destruct (student_objs h !! student); [|done]. by injection Hstep as <- <-.
  - destruct (teacher_objs h !! teacher); [|done]. by injection Hstep as <- <-.
  - destruct (course_objs h !! course); [|done]. by injection Hstep as <- <-.
  - destruct (School.enrollStudentInCourse student_id course_id sc h)
      as [[[b h'] out']|] eqn:Hcall; [|done].
    injection Hstep as <- <-. simpl.
    apply enroll_shape in Hcall as (_ & Hshape & _).
    intros p s' Hl. destruct (Hshape p s' Hl) as (s & Hs & [->| ->]); eauto.
  - destruct (student_objs h !! student) as [s|] eqn:Hs; [|done].
    simpl in Hstep.
    destruct (Student.updateWAM course_id wam s) as [s' out'] eqn:Hup.
    injection Hstep as <- <-. simpl.
    intros p s1 Hl. destruct (decide (p = student)) as [->|Hne].
    + rewrite list_lookup_insert_eq in Hl by by eapply lookup_lt_Some.
      injection Hl as <-.
      replace s' with (fst (Student.updateWAM course_id wam s))
        by by rewrite Hup.
      eauto.
    + rewrite list_lookup_insert_ne in Hl by done. eauto.
  - destruct (student_objs h !! student) as [s|] eqn:Hs; [|done].
    injection Hstep as <- <-. simpl.
    intros p s1 Hl. destruct (decide (p = student)) as [->|Hne].
    + rewrite list_lookup_insert_eq in Hl by by eapply lookup_lt_Some.
      injection Hl as <-. eauto.
    + rewrite list_lookup_insert_ne in Hl by done. eauto.
Qed.

Lemma guard_passed_valid (wam : float) :
  guard_passed wam -> Float32.is_nan wam = false -> valid_score wam = true.
Proof.
  intros [G G'] Hnan.
  pose proof (guard_valid_score wam Hnan) as H. rewrite G, G' in H.
  simpl in H. by destruct (valid_score wam).
Qed.

(** X7: after any sequence of operations on a new school, every score stored
    in the enrollment map of a student has passed the guard of
    [updateWAM]: it is neither below 0 nor above 100, so that a stored
    score that is a number lies in [[0, 100]]. *)
Theorem stored_scores_guarded (ops : list Op) (name : string) (w : World)
    (out : list Output) :
  run ops (init_world name) = Some (w, out) ->
  forall p s course_id wam,
    student_objs (heap w) !! p = Some s ->
    (course_id, Some wam) ∈ Student.courses s ->
    guard_passed wam /\
    (Float32.is_nan wam = false -> valid_score wam = true).
Proof.
  intros Hrun p s course_id wam Hs Hin.
  assert (scores_guarded s) as Hg.
  { clear Hin. revert p s Hs.
    eapply (run_student_invariant scores_guarded); [| | | | |exact Hrun].
    - intros ? ? ? ? ? ? k v Hin. by apply elem_of_nil in Hin.
    - intros c s Hs k v Hin. unfold Student.enroll in Hin.
      destruct (StdMap.find c (Student.courses s)); simpl in Hin.
      + by apply (Hs k).
      + apply elem_of_assign in Hin as [[=]|Hin]. by apply (Hs k).
    - intros c x s Hs k v Hin. unfold Student.updateWAM in Hin.
      destruct (Float32.ltb x (Float32.of_Z 0)) eqn:G;
        [by apply (Hs k)|].
      destruct (Float32.ltb (Float32.of_Z 100) x) eqn:G';
        [by apply (Hs k)|]. simpl in Hin.
      destruct (StdMap.find c (Student.courses s)); simpl in Hin;
        [|by apply (Hs k)].
      apply elem_of_assign in Hin as [[= -> ->]|Hin]; [done|].
      by apply (Hs k).
    - intros o s Hs k v Hin. by apply (Hs k).
    - intros p s Hl. simpl in Hl. by rewrite lookup_nil in Hl. }
  split; [by eapply Hg|]. apply guard_passed_valid. by eapply Hg.
Qed.

Lemma stored_scores_guarded_witness :
  guard_passed (Float32.of_Z 80).
Proof.
  refine (proj1 (stored_scores_guarded
    (script_happy ++ [UpdateWAM 0%nat "CS101" (Float32.of_Z 80)])
    "College"
    (world_after (script_happy ++
                    [UpdateWAM 0%nat "CS101" (Float32.of_Z 80)]))
    (output_of (script_happy ++
                  [UpdateWAM 0%nat "CS101" (Float32.of_Z 80)]))
    _ 0%nat (fst (Student.updateWAM "CS101" (Float32.of_Z 80)
                    (Student.set_courses [("CS101"%string, None)]
                       (Student.new "S001" "Ann" "ann@example.org"
                          no_address FRESHMAN 0))))
    "CS101"%string (Float32.of_Z 80) _ _)).
  - vm_compute. reflexivity.
  - vm_compute. reflexivity.
  - vm_compute. apply list_elem_of_here.
Defined.

(** X8: after any sequence of operations on a new school, the enrollment map
    of every student lists its courses in strictly ascending order of
    their ids, hence each course once. *)
Theorem enrollment_maps_ascending (ops : list Op) (name : string)
    (w : World) (out : list Output) :
  run ops (init_world name) = Some (w, out) ->
  forall p s, student_objs (heap w) !! p = Some s ->
    ascending_keys (Student.courses s) /\
    NoDup (StdMap.keys (Student.courses s)).
Proof.
  intros Hrun p s Hs.
  assert (ascending_keys (Student.courses s)) as Ha.
  { revert p s Hs.
    eapply (run_student_invariant
              (fun s => ascending_keys (Student.courses s)));
      [| | | | |exact Hrun].
    - intros. constructor.
    - intros c s Hs. unfold Student.enroll.
      destruct (StdMap.find c (Student.courses s)); simpl; [done|].
      by apply assign_ascending.
    - intros c x s Hs. unfold Student.updateWAM.
      destruct (_ || _); [done|].
      destruct (StdMap.find c (Student.courses s)); simpl; [|done].
      by apply assign_ascending.
    - by intros o s Hs.
    - intros p s Hl. simpl in Hl. by rewrite lookup_nil in Hl. }
  split; [done | by apply ascending_keys_NoDup].
Qed.

Lemma enrollment_maps_ascending_witness :
  NoDup (StdMap.keys [("CS101"%string, @None float)]).
Proof.
  refine (proj2 (enrollment_maps_ascending script_happy "College"
    world_happy (output_of script_happy) _ 0%nat
    (Student.set_courses [("CS101"%string, None)]
       (Student.new "S001" "Ann" "ann@example.org" no_address FRESHMAN 0))
    _)).
  - vm_compute. reflexivity.
  - vm_compute. reflexivity.
Defined.

(** ** What an enrollment leaves alone *)

Lemma omap_assign_None (course_id : string)
    (m : StdMap.t (option float)) :
  StdMap.find course_id m = None ->
  omap snd (StdMap.assign course_id None m) = omap snd m.
Proof.
  induction m as [|[k v] m IH]; simpl; [done|].
  destruct (String.eqb_spec course_id k) as [->|Hne]; [done|].
  intros Hf. destruct (String.compare course_id k) eqn:Hc; simpl.
  - by apply String.compare_eq_iff in Hc.
  - done.
  - fold (@omap list _ _ _ snd (StdMap.assign course_id None m)).
    fold (@omap list _ _ _ snd m). by rewrite IH.
Qed.

Lemma overallWAM_after_enroll (course_id : string) (s : Student.t) :
  Student.overallWAM (fst (Student.enroll course_id s))
  = Student.overallWAM s.
Proof.
  unfold Student.enroll.
  destruct (StdMap.find course_id (Student.courses s)) eqn:Hf; [done|].
  unfold Student.overallWAM. rewrite !collect_wams_present.
  unfold present_scores. simpl. by rewrite omap_assign_None.
Qed.

(** X9: [Student::enroll] does not change the overall WAM: a slot without a
    score does not enter the mean. *)
Theorem enroll_keeps_overallWAM (course_id : string) (s : Student.t) :
  Student.overallWAM (fst (Student.enroll course_id s))
  = Student.overallWAM s.
Proof. exact (overallWAM_after_enroll course_id s). Qed.

Lemma Student_enroll_keeps (course_id : string) (s : Student.t) :
  let s' := fst (Student.enroll course_id s) in
  Student.person s' = Student.person s /\
  Student.grade_level s' = Student.grade_level s /\
  Student.observable s' = Student.observable s /\
  forall k slot, StdMap.find k (Student.courses s) = Some slot ->
                 StdMap.find k (Student.courses s') = Some slot.
Proof.
  unfold Student.enroll.
  destruct (StdMap.find course_id (Student.courses s)) eqn:Hf; [done|].
  simpl. repeat split. intros k slot Hk.
  rewrite find_assign_ne; [done|]. congruence.
Qed.

Lemma Course_enrollStudent_keeps (student_id : string) (c : Course.t) :
  let c' := snd (Course.enrollStudent student_id c) in
  Course.id c' = Course.id c /\
  Course.name c' = Course.name c /\
  Course.credits c' = Course.credits c /\
  Course.capacity c' = Course.capacity c /\
  Course.prerequisites c' = Course.prerequisites c /\
  Course.enrolled_students c ⊆ Course.enrolled_students c'.
Proof.
  unfold Course.enrollStudent. destruct (_ <? _); simpl; [|done].
  repeat split. set_solver.
Qed.

Lemma enroll_lengths student_id course_id sc h b h' out :
  School.enrollStudentInCourse student_id course_id sc h = Some (b, h', out) ->
  length (student_objs h') = length (student_objs h) /\
  length (course_objs h') = length (course_objs h).
Proof.
  intros Hcall%enroll_cases.
  destruct Hcall; simpl; by rewrite ?length_insert.
Qed.

(** X10: a call of [enrollStudentInCourse], whatever it returns, changes no
    teacher and adds or removes no object: the store has as many students
    and as many courses as before, and every student and every course of
    the store before the call is still there after it. Every student keeps
    its identity, grade level, observers, every slot it had, score
    included, and its overall WAM; every course keeps its id, name,
    credits, capacity and prerequisites and loses no enrolled student. *)
Theorem enroll_frame (student_id course_id : string) (sc : School.t)
    (h h' : Heap) (b : bool) (out : list Output) :
  School.enrollStudentInCourse student_id course_id sc h = Some (b, h', out) ->
  teacher_objs h' = teacher_objs h /\
  length (student_objs h') = length (student_objs h) /\
  length (course_objs h') = length (course_objs h) /\
  (forall p s, student_objs h !! p = Some s ->
     exists s', student_objs h' !! p = Some s' /\
       Student.person s' = Student.person s /\
       Student.grade_level s' = Student.grade_level s /\
       Student.observable s' = Student.observable s /\
       (forall k slot, StdMap.find k (Student.courses s) = Some slot ->
                       StdMap.find k (Student.courses s') = Some slot) /\
       Student.overallWAM s' = Student.overallWAM s) /\
  (forall p c, course_objs h !! p = Some c ->
     exists c', course_objs h' !! p = Some c' /\
       Course.id c' = Course.id c /\
       Course.name c' = Course.name c /\
       Course.credits c' = Course.credits c /\
       Course.capacity c' = Course.capacity c /\
       Course.prerequisites c' = Course.prerequisites c /\
       Course.enrolled_students c ⊆ Course.enrolled_students c').
Proof.
  intros Hcall. destruct (enroll_lengths _ _ _ _ _ _ _ Hcall) as [Hls Hlc].
  apply enroll_shape in Hcall as (Ht & Hs & Hc).
  split; [done|]. split; [done|]. split; [done|]. split.
  - intros p s Hl.
    destruct (lookup_lt_is_Some_2 (student_objs h') p) as [s' Hl'].
    { rewrite Hls. by eapply lookup_lt_Some. }
    exists s'. split; [done|].
    destruct (Hs p s' Hl') as (s0 & Hs0 & Hcase).
    assert (s0 = s) as -> by congruence.
    destruct Hcase as [->| ->]; [done|].
    pose proof (Student_enroll_keeps course_id s) as (A & B & C & D).
    repeat split; try done. apply overallWAM_after_enroll.
  - intros p c Hl.
    destruct (lookup_lt_is_Some_2 (course_objs h') p) as [c' Hl'].
    { rewrite Hlc. by eapply lookup_lt_Some. }
    exists c'. split; [done|].
    destruct (Hc p c' Hl') as (c0 & Hc0 & Hcase).
    assert (c0 = c) as -> by congruence.
    destruct Hcase as [->| ->]; [done|].
    apply Course_enrollStudent_keeps.
Qed.

Lemma enroll_frame_witness :
  exists s', student_objs heap_A_in_X !! 1%nat = Some s' /\
    Student.overallWAM s'
    = Student.overallWAM (Student.new "B" "Ben" "" no_address JUNIOR 0).
Proof.
  assert (School.enrollStudentInCourse "A" "X" school_two_one heap_AB_X =
            Some (true, heap_A_in_X,
                  [Notify (mkScoreEvent "A" "X" None Float32.zero) []]))
    as Hcall by (vm_compute; reflexivity).
  destruct (proj1 (proj2 (proj2 (proj2 (enroll_frame _ _ _ _ _ _ _ Hcall))))
              1%nat (Student.new "B" "Ben" "" no_address JUNIOR 0))
    as (s' & Hs' & _ & _ & _ & _ & Hw).
  - reflexivity.
  - by exists s'.
Defined.

(** ** Course::availableSeats and Course::enrollStudent *)

Lemma to_int_small (z : Z) : int_range z -> to_int z = z.
Proof.
  unfold to_int, int_range, int_bits. intros H.
  rewrite Z.mod_small; lia.
Qed.

(** X11: for a course whose capacity is not negative and not exceeded,
    [availableSeats] is the capacity minus the number of enrolled
    students, and [enrollStudent] accepts exactly when a seat is
    available. Accepting a student that is not yet enrolled takes one
    seat; accepting one that is enrolled already takes none. *)
Theorem availableSeats_enrollStudent (student_id : string) (c : Course.t) :
  int_range (Course.capacity c) ->
  Z.of_nat (size (Course.enrolled_students c)) <= Course.capacity c ->
  let c' := snd (Course.enrollStudent student_id c) in
  Course.availableSeats c =
    Course.capacity c - Z.of_nat (size (Course.enrolled_students c)) /\
  (fst (Course.enrollStudent student_id c) = true <->
   0 < Course.availableSeats c) /\
  (fst (Course.enrollStudent student_id c) = false -> c' = c) /\
  (fst (Course.enrollStudent student_id c) = true ->
   Course.availableSeats c' =
     if decide (student_id ∈ Course.enrolled_students c)
     then Course.availableSeats c else Course.availableSeats c - 1).
Proof.
  intros Hint Hle.
  assert (0 <= Course.capacity c) as Hnn by lia.
  assert (forall X : gset string,
            Z.of_nat (size X) <= Course.capacity c ->
            to_int ((to_size_t (Course.capacity c) - Z.of_nat (size X))
                    mod 2 ^ size_t_bits)
            = Course.capacity c - Z.of_nat (size X)) as Hav.
  { intros X HX. rewrite to_size_t_int by done.
    unfold int_range, int_bits, size_t_bits in *.
    rewrite Z.mod_small by lia. apply to_int_small.
    unfold int_range, int_bits. lia. }
  unfold Course.availableSeats, Course.enrollStudent.
  rewrite (Hav _ Hle). rewrite (to_size_t_int _ Hint Hnn).
  split; [done|].
  destruct (Z.ltb_spec (Z.of_nat (size (Course.enrolled_students c)))
                       (Course.capacity c)) as [Hlt|Hge]; simpl.
  - split; [split; [lia|done]|]. split; [done|]. intros _.
    destruct (decide (student_id ∈ Course.enrolled_students c)) as [Hin|Hnew].
    + replace ({[student_id]} ∪ Course.enrolled_students c)
        with (Course.enrolled_students c) by set_solver.
      by apply Hav.
    + rewrite Hav; rewrite size_insert_new by done; lia.
  - split; [split; [done|lia]|]. split; [done|]. done.
Qed.

Lemma availableSeats_enrollStudent_witness :
  Course.availableSeats (Course.new "X" "Logic" 3 1) = 1 - 0.
Proof.
  apply (availableSeats_enrollStudent "A" (Course.new "X" "Logic" 3 1)).
  - unfold int_range, int_bits. simpl. lia.
  - vm_compute. discriminate.
Defined.

(** X12: a course with a negative capacity accepts every student: the
    comparison of [enrollStudent] converts the capacity to a huge [size_t],
    while [availableSeats] reports the negative number capacity minus
    enrolled students. *)
Theorem negative_capacity_accepts (student_id : string) (c : Course.t) :
  int_range (Course.capacity c) ->
  Course.capacity c < 0 ->
  int_range (Course.capacity c
             - Z.of_nat (size (Course.enrolled_students c))) ->
  fst (Course.enrollStudent student_id c) = true /\
  student_id ∈ Course.enrolled_students
                 (snd (Course.enrollStudent student_id c)) /\
  Course.availableSeats c =
    Course.capacity c - Z.of_nat (size (Course.enrolled_students c)) /\
  Course.availableSeats c < 0.
Proof.
  intros Hint Hneg Hdiff.
  assert (to_size_t (Course.capacity c)
          = 2 ^ size_t_bits + Course.capacity c) as Hconv.
  { unfold to_size_t, int_range, int_bits, size_t_bits in *.
    symmetry. apply (Z.mod_unique _ _ (-1)); lia. }
  unfold Course.enrollStudent, Course.availableSeats. rewrite Hconv.
  set (k := Z.of_nat (size (Course.enrolled_students c))) in *.
  assert (0 <= k) as Hk by (unfold k; lia).
  unfold int_range, int_bits, size_t_bits in *.
  rewrite (proj2 (Z.ltb_lt _ _)) by lia. simpl.
  split; [done|]. split; [set_solver|].
  rewrite Z.mod_small by lia.
  assert (to_int (2 ^ 64 + Course.capacity c - k) = Course.capacity c - k)
    as ->; [|lia].
  unfold to_int, int_bits.
  replace (2 ^ 64 + Course.capacity c - k + 2 ^ (32 - 1))
    with ((Course.capacity c - k + 2 ^ 31) + 2 ^ 32 * 2 ^ 32) by lia.
  rewrite Z.mod_add by lia. rewrite Z.mod_small by lia. lia.
Qed.

Lemma negative_capacity_accepts_witness :
  fst (Course.enrollStudent "A" (Course.new "X" "Logic" 3 (-1))) = true.
Proof.
  apply (negative_capacity_accepts "A" (Course.new "X" "Logic" 3 (-1))).
  - unfold int_range, int_bits. simpl. lia.
  - simpl. lia.
  - unfold int_range, int_bits. vm_compute. split; [discriminate | reflexivity].
Defined.

(** ** Teacher::assignCourse and Teacher::courseLoad *)

Lemma assign_courses_set (course_ids : list string) (x : Teacher.t) :
  Teacher.assigned_courses (assign_courses course_ids x)
  = list_to_set course_ids ∪ Teacher.assigned_courses x.
Proof.
  unfold assign_courses. revert x.
  induction course_ids as [|c l IH]; intros x; simpl.
  - set_solver.
  - rewrite IH. simpl. set_solver.
Qed.

Lemma length_remove_dups {A : Type} `{EqDecision A} (l : list A) :
  (length (remove_dups l) <= length l)%nat.
Proof.
  induction l as [|x l IH]; simpl; [done|].
  destruct (decide_rel elem_of x l); simpl; lia.
Qed.

(** X13: assigning a course twice is the same as assigning it once, the order
    of two assignments does not matter, and the course load of a new
    teacher after any list of assignments is the number of distinct
    courses in the list. *)
Theorem assignCourse_courseLoad (c1 c2 : string) (x : Teacher.t)
    (course_ids : list string) :
  Teacher.assignCourse c1 (Teacher.assignCourse c1 x)
    = Teacher.assignCourse c1 x /\
  Teacher.assignCourse c1 (Teacher.assignCourse c2 x)
    = Teacher.assignCourse c2 (Teacher.assignCourse c1 x) /\
  (Teacher.assigned_courses x = ∅ ->
   int_range (Z.of_nat (length course_ids)) ->
   Teacher.courseLoad (assign_courses course_ids x)
     = Z.of_nat (length (remove_dups course_ids))).
Proof.
  split; [|split].
  - unfold Teacher.assignCourse. simpl. f_equal. set_solver.
  - unfold Teacher.assignCourse. simpl. f_equal. set_solver.
  - intros Hnew Hlen. unfold Teacher.courseLoad.
    rewrite assign_courses_set, Hnew, union_empty_r_L.
    assert (list_to_set course_ids
            = (list_to_set (remove_dups course_ids) : gset string)) as ->.
    { apply set_eq. intros c.
      by rewrite !elem_of_list_to_set, elem_of_remove_dups. }
    rewrite size_list_to_set by apply NoDup_remove_dups.
    apply to_int_small.
    pose proof (length_remove_dups course_ids) as Hle.
    unfold int_range in *. lia.
Qed.

Lemma assignCourse_courseLoad_witness :
  Teacher.courseLoad
    (assign_courses ["CS101"; "CS201"; "CS101"]%string
       (Teacher.new "T1" "Tia" "" no_address "Computing" "Networks" 0))
  = 2.
Proof.
  apply (proj2 (proj2 (assignCourse_courseLoad "" ""
           (Teacher.new "T1" "Tia" "" no_address "Computing" "Networks" 0)
           ["CS101"; "CS201"; "CS101"]%string))).
  - reflexivity.
  - unfold int_range, int_bits. simpl. lia.
Defined.

(** ** School::getDepartmentStats *)

Lemma in_department_snoc (d : string) (xs : list Teacher.t) (x : Teacher.t) :
  in_department d (xs ++ [x]) =
    if decide (Teacher.getDepartment x = d)
    then in_department d xs ++ [x] else in_department d xs.
Proof.
  unfold in_department. rewrite filter_app.
  destruct (decide (Teacher.getDepartment x = d)) as [E|N].
  - by rewrite (filter_cons_True _ x []).
  - rewrite (filter_cons_False _ x []) by done. by rewrite app_nil_r.
Qed.

Lemma count_departments_counts (h : Heap) (ps : list ptr) :
  forall (xs ys : list Teacher.t) (stats : StdMap.t Z),
  Forall2 (fun p x => teacher_objs h !! p = Some x) ps xs ->
  counts_of ys stats ->
  Z.of_nat (length ys) + Z.of_nat (length xs) < 2 ^ (int_bits - 1) ->
  exists stats',
    School.count_departments h ps stats = Some stats' /\
    counts_of (ys ++ xs) stats'.
Proof.
  induction ps as [|p ps IH]; intros xs ys stats Hl Hc Hlen.
  - apply Forall2_nil_inv_l in Hl as ->. exists stats.
    by rewrite app_nil_r.
  - apply Forall2_cons_inv_l in Hl as (x & xs' & Hx & Hl & ->).
    simpl. rewrite Hx. simpl.
    set (d := Teacher.getDepartment x).
    set (n := Z.of_nat (length (in_department d ys))).
    assert (default 0 (StdMap.find d stats) = n) as Hn.
    { rewrite (Hc d). unfold n.
      destruct (decide (in_department d ys = [])) as [->|]; done. }
    assert (n <= Z.of_nat (length ys)) as Hle.
    { unfold n, in_department. pose proof (length_filter
        (fun x => Teacher.getDepartment x = d) ys). lia. }
    unfold School.increment. rewrite Hn.
    simpl in Hlen.
    rewrite (proj2 (Z.eqb_neq _ _)) by lia. simpl.
    destruct (IH xs' (ys ++ [x]) (StdMap.assign d (n + 1) stats))
      as (stats' & Hrun & Hcounts); [done| |rewrite length_app; simpl; lia|].
    + intros d'. rewrite in_department_snoc. fold d.
      destruct (decide (d = d')) as [<-|Hne].
      * rewrite find_assign_eq.
        destruct (decide (in_department d ys ++ [x] = [])) as [E|_].
        { by destruct (in_department d ys). }
        rewrite length_app. simpl. f_equal. unfold n. lia.
      * rewrite find_assign_ne by done. apply Hc.
    + exists stats'. split; [done|]. by rewrite <- app_assoc in Hcounts.
Qed.

(** X14: [getDepartmentStats] maps every department to the number of
    registered teachers of that department, and has no entry for a
    department without a registered teacher. *)
Theorem getDepartmentStats_counts (sc : School.t) (h : Heap)
    (xs : list Teacher.t) :
  Forall2 (fun p x => teacher_objs h !! p = Some x) (School.teachers sc) xs ->
  int_range (Z.of_nat (length xs)) ->
  exists stats,
    School.getDepartmentStats sc h = Some stats /\
    forall department,
      StdMap.find department stats =
        if decide (in_department department xs = []) then None
        else Some (Z.of_nat (length (in_department department xs))).
Proof.
  intros Hl Hlen.
  destruct (count_departments_counts h (School.teachers sc) xs []
              StdMap.empty Hl) as (stats & Hrun & Hcounts).
  - intros d. reflexivity.
  - unfold int_range in Hlen. simpl. lia.
  - by exists stats.
Qed.

Lemma getDepartmentStats_counts_witness :
  exists stats,
    School.getDepartmentStats school_teachers heap_teachers = Some stats /\
    StdMap.find "Computing" stats = Some 2 /\
    StdMap.find "Careers" stats = Some 1 /\
    StdMap.find "Music" stats = None.
Proof.
  destruct (getDepartmentStats_counts school_teachers heap_teachers
              (teacher_objs heap_teachers))
    as (stats & Hrun & Hcounts).
  - repeat constructor.
  - unfold int_range, int_bits. simpl. lia.
  - exists stats. split; [exact Hrun|].
    rewrite !Hcounts. repeat split.
Defined.

(** ** School::getTopPerformers, at the bounds *)

(** X15: for a negative [n] the whole ranking is returned: the comparison
    [n > performers.size()] converts [n] to [size_t], which makes it larger
    than any size, and [n] is set to the size. *)
Theorem getTopPerformers_negative
    (sort : (School.performer -> School.performer -> bool) ->
            list School.performer -> list School.performer)
    (n : Z) (sc : School.t) (h : Heap) (ss : list Student.t) :
  let performers :=
    map (fun s => (Student.getName s, Student.overallWAM s)) ss in
  std_sort_contract sort ->
  Forall2 (fun p s => student_objs h !! p = Some s) (School.students sc) ss ->
  (forall s, s ∈ ss -> Float32.is_nan (Student.overallWAM s) = false) ->
  int_range n -> n < 0 ->
  int_range (Z.of_nat (length ss)) ->
  School.getTopPerformers sort n sc h =
    Some (sort School.by_wam_descending performers) /\
  length (sort School.by_wam_descending performers) = length ss.
Proof.
  intros performers Hsort Hss Hnan Hint Hn Hlen.
  assert (forall p, In p performers -> Float32.is_nan (snd p) = false) as Hnan'.
  { intros p Hp. apply in_map_iff in Hp as (s & <- & Hs). simpl.
    apply Hnan. by apply list_elem_of_In. }
  destruct (Hsort School.by_wam_descending performers
              (by_wam_descending_swo _ Hnan')) as [Hperm _].
  set (sorted := sort School.by_wam_descending performers) in *.
  assert (length sorted = length ss) as Hls.
  { rewrite <- (Permutation_length Hperm). unfold performers.
    by rewrite length_map. }
  split; [|done].
  unfold School.getTopPerformers.
  rewrite (collect_performers_students _ _ _ Hss). simpl.
  fold performers. fold sorted. rewrite Hls.
  assert (to_size_t n = 2 ^ size_t_bits + n) as ->.
  { unfold to_size_t, int_range, int_bits, size_t_bits in *.
    symmetry. apply (Z.mod_unique _ _ (-1)); lia. }
  unfold int_range, int_bits, size_t_bits in *.
  rewrite (proj2 (Z.gtb_lt _ _)) by lia.
  rewrite to_int_small by (unfold int_range, int_bits; lia).
  rewrite (proj2 (Z.ltb_ge _ _)) by lia.
  rewrite Nat2Z.id, <- Hls. by rewrite firstn_all.
Qed.

Lemma getTopPerformers_negative_witness :
  School.getTopPerformers insertion_sort (-5) school_ABC heap_ABC =
    Some (insertion_sort School.by_wam_descending
            [("A"%string, Float32.of_Z 80); ("B"%string, Float32.of_Z 80);
             ("C"%string, Float32.of_Z 70)]).
Proof.
  apply (getTopPerformers_negative insertion_sort (-5) school_ABC heap_ABC
           (student_objs heap_ABC)).
  - apply insertion_sort_contract.
  - repeat constructor.
  - intros s Hs. simpl in Hs.
    repeat (apply elem_of_cons in Hs as [->|Hs]; [reflexivity|]).
    by apply elem_of_nil in Hs.
  - unfold int_range, int_bits. simpl. lia.
  - lia.
  - unfold int_range, int_bits. simpl. lia.
Defined.

(** X16: on a school without students [getTopPerformers] returns the empty
    sequence for every [n], negative ones included. *)
Theorem getTopPerformers_no_students
    (sort : (School.performer -> School.performer -> bool) ->
            list School.performer -> list School.performer)
    (n : Z) (sc : School.t) (h : Heap) :
  std_sort_contract sort ->
  School.students sc = [] ->
  int_range n ->
  School.getTopPerformers sort n sc h = Some [].
Proof.
  intros Hsort Hnone Hint.
  assert (sort School.by_wam_descending [] = []) as Hnil.
  { destruct (Hsort School.by_wam_descending []) as [Hperm _].
    - split; intros; by exfalso.
    - by apply Permutation_nil. }
  unfold School.getTopPerformers, School.collect_performers.
  rewrite Hnone. simpl. unfold School.performer in *. rewrite Hnil.
  cbn [length]. rewrite take_nil.
  change (Z.of_nat 0) with 0. change (to_int 0) with 0.
  destruct (to_size_t n >? 0) eqn:Hgt; [reflexivity|].
  destruct (Z.ltb_spec n 0) as [Hneg|Hpos]; [|reflexivity].
  exfalso. rewrite Z.gtb_ltb in Hgt. apply Z.ltb_ge in Hgt.
  unfold to_size_t, int_range, int_bits, size_t_bits in *.
  assert (n mod 2 ^ 64 = 2 ^ 64 + n)
    by (symmetry; apply (Z.mod_unique _ _ (-1)); lia).
  lia.
Qed.

Lemma getTopPerformers_no_students_witness :
  School.getTopPerformers insertion_sort (-1) (School.new "College")
    empty_heap = Some [].
Proof.
  apply getTopPerformers_no_students.
  - apply insertion_sort_contract.
  - reflexivity.
  - unfold int_range, int_bits. simpl. lia.
Defined.

(** ** Strings *)

Lemma string_app_cons (c : ascii) (a b : string) :
  String c a +:+ b = String c (a +:+ b).
Proof. reflexivity. Qed.

Lemma string_app_nil_l (b : string) : EmptyString +:+ b = b.
Proof. reflexivity. Qed.

Lemma take_drop_string (n : nat) (s : string) :
  string_take n s +:+ string_drop n s = s.
Proof.
  revert s. induction n as [|n IH]; intros [|c s]; simpl; try done.
  by rewrite string_app_cons, IH.
Qed.

Ltac string_step :=
  cbn [find_first_not_of find_last_not_of all_space string_take string_drop
       String.length];
  change (contains_char whitespace) with is_space in *.

Lemma find_first_None (s : string) :
  find_first_not_of whitespace s = None -> all_space s = true.
Proof.
  induction s as [|c s IH]; string_step; [done|].
  destruct (is_space c); [|done].
  destruct (find_first_not_of whitespace s); [done|]. auto.
Qed.

Lemma find_first_Some (s : string) (i : nat) :
  find_first_not_of whitespace s = Some i ->
  all_space (string_take i s) = true /\
  exists c t, string_drop i s = String c t /\ is_space c = false.
Proof.
  revert i. induction s as [|c s IH]; intros i; string_step; [done|].
  destruct (is_space c) eqn:Hc.
  - destruct (find_first_not_of whitespace s) as [j|]; [|done].
    intros [= <-]. string_step. rewrite Hc. by apply IH.
  - intros [= <-]. string_step. split; [done|]. by exists c, s.
Qed.

Lemma find_last_None (s : string) :
  find_last_not_of whitespace s = None -> all_space s = true.
Proof.
  induction s as [|c s IH]; string_step; [done|].
  destruct (find_last_not_of whitespace s); [done|].
  destruct (is_space c); [auto|done].
Qed.

Lemma find_last_Some (s : string) (j : nat) :
  find_last_not_of whitespace s = Some j ->
  all_space (string_drop (S j) s) = true /\
  exists t c, string_take (S j) s = t +:+ String c EmptyString /\
              is_space c = false.
Proof.
  revert j. induction s as [|c s IH]; intros j; string_step; [done|].
  destruct (find_last_not_of whitespace s) as [i|] eqn:Hl.
  - intros [= <-]. destruct (IH i eq_refl) as (Hd & t & c' & Ht & Hc').
    split; [done|]. exists (String c t), c'. split; [|done].
    by rewrite string_app_cons, <- Ht.
  - destruct (is_space c) eqn:Hc; [done|].
    intros [= <-]. split; [by apply find_last_None|].
    exists EmptyString, c. split; [|done]. by destruct s.
Qed.

Lemma string_app_nil_r (s : string) : s +:+ EmptyString = s.
Proof.
  induction s as [|c s IH]; [done|]. by rewrite string_app_cons, IH.
Qed.

Lemma string_app_assoc (a b c : string) :
  (a +:+ b) +:+ c = a +:+ (b +:+ c).
Proof.
  induction a as [|x a IH]; [done|]. by rewrite !string_app_cons, IH.
Qed.

Lemma string_snoc_inj (t t' : string) (c c' : ascii) :
  t +:+ String c EmptyString = t' +:+ String c' EmptyString ->
  t = t' /\ c = c'.
Proof.
  revert t'. induction t as [|x t IH]; intros [|x' t'];
    rewrite ?string_app_cons, ?string_app_nil_l.
  - by intros [= ->].
  - intros [= -> H]. by destruct t'.
  - intros [= -> H]. by destruct t.
  - intros [= -> H]. destruct (IH t' H) as [-> ->]. done.
Qed.

Lemma trim_decomposition (token : string) :
  exists l r,
    token = l +:+ trim token +:+ r /\
    all_space l = true /\ all_space r = true /\
    trimmed (trim token).
Proof.
  unfold trim, erase.
  destruct (find_first_not_of whitespace token) as [i|] eqn:Hf.
  - destruct (find_first_Some _ _ Hf) as (Hl & c & t & Hdrop & Hc).
    change (string_take 0 token) with EmptyString.
    rewrite string_app_nil_l, Nat.add_0_l, Hdrop.
    assert (exists j, find_last_not_of whitespace (String c t) = Some j)
      as [j Hj].
    { string_step. destruct (find_last_not_of whitespace t); [eauto|].
      rewrite Hc. eauto. }
    rewrite Hj.
    destruct (find_last_Some _ _ Hj) as (Hr & u & c' & Hu & Hc').
    exists (string_take i token), (string_drop (S j) (String c t)).
    split; [|split; [done|split; [done|]]].
    + rewrite take_drop_string, <- Hdrop. by rewrite take_drop_string.
    + split.
      * intros x y Hxy. string_step. by injection Hxy as <- _.
      * intros y x Hxy. rewrite Hu in Hxy.
        by apply string_snoc_inj in Hxy as [_ <-].
  - change (string_take 0 token) with EmptyString.
    string_step. change (string_take 0 EmptyString) with EmptyString.
    exists token, EmptyString.
    split; [by rewrite string_app_nil_l, string_app_nil_r|].
    split; [by apply find_first_None|]. split; [done|].
    split; [done|]. intros [|] ?; done.
Qed.

(** X17: what [trim] removes from a token is white space at its two ends, and
    what it leaves neither begins nor ends with white space; a token of
    white space only becomes empty. *)
Theorem trim_spec (token : string) :
  exists l r,
    token = l +:+ trim token +:+ r /\
    all_space l = true /\ all_space r = true /\
    trimmed (trim token).
Proof. exact (trim_decomposition token). Qed.

Lemma find_last_snoc (t : string) (c : ascii) :
  is_space c = false ->
  find_last_not_of whitespace (t +:+ String c EmptyString)
  = Some (String.length t).
Proof.
  intros Hc. induction t as [|x t IH];
    rewrite ?string_app_cons, ?string_app_nil_l; string_step.
  - by rewrite Hc.
  - by rewrite IH.
Qed.

Lemma string_take_all (s : string) :
  string_take (String.length s) s = s.
Proof. induction s as [|c s IH]; string_step; [done|]. by rewrite IH. Qed.

Lemma string_length_snoc (t : string) (c : ascii) :
  String.length (t +:+ String c EmptyString) = S (String.length t).
Proof.
  induction t as [|x t IH]; rewrite ?string_app_cons, ?string_app_nil_l;
    string_step; [done|]. by rewrite IH.
Qed.

Lemma string_snoc_cases (s : string) :
  s = EmptyString \/ exists t c, s = t +:+ String c EmptyString.
Proof.
  induction s as [|x s IH]; [by left|]. right.
  destruct IH as [->|(t & c & ->)].
  - by exists EmptyString, x.
  - by exists (String x t), c.
Qed.

Lemma trim_fixed_point (token : string) :
  (trimmed token -> trim token = token) /\
  trim (trim token) = trim token.
Proof.
  assert (forall s, trimmed s -> trim s = s) as Hfix.
  { intros s [Hfirst Hlast]. destruct s as [|c s]; [done|].
    unfold trim, erase. string_step.
    pose proof (Hfirst c s eq_refl) as Hc. rewrite Hc.
    change (string_take 0 (String c s)) with EmptyString.
    rewrite string_app_nil_l, Nat.add_0_l.
    change (string_drop 0 (String c s)) with (String c s).
    destruct (string_snoc_cases (String c s)) as [|(t & c' & Ht)]; [done|].
    rewrite Ht, find_last_snoc by eauto.
    by rewrite <- (string_length_snoc t c'), string_take_all. }
  split; [apply Hfix|].
  destruct (trim_decomposition token) as (_ & _ & _ & _ & _ & Ht).
  by apply Hfix.
Qed.

(** X18: [trim] leaves a token alone that neither begins nor ends with white
    space; hence trimming twice is trimming once. *)
Theorem trim_trimmed (token : string) :
  (trimmed token -> trim token = token) /\
  trim (trim token) = trim token.
Proof. exact (trim_fixed_point token). Qed.

Lemma trim_trimmed_witness : trim "CS101" = "CS101"%string.
Proof.
  apply (proj1 (trim_trimmed "CS101")). split.
  - by intros c t [= <- _].
  - intros t c H.
    change "CS101"%string with ("CS10" +:+ String "1" EmptyString)%string in H.
    by apply string_snoc_inj in H as [_ <-].
Defined.

Lemma getlines_app_no_delim (delim : ascii) (t rest acc : string) :
  has_char delim t = false ->
  getlines delim (t +:+ rest) acc = getlines delim rest (acc +:+ t).
Proof.
  revert acc. induction t as [|c t IH]; intros acc.
  - intros _. by rewrite string_app_nil_l, string_app_nil_r.
  - cbn [has_char]. intros [Hc Ht]%orb_false_iff.
    rewrite string_app_cons. cbn [getlines]. rewrite Hc.
    rewrite IH by done. by rewrite string_app_assoc.
Qed.

Lemma getlines_token (delim : ascii) (t : string) :
  has_char delim t = false -> t <> EmptyString ->
  getlines delim t EmptyString = [t].
Proof.
  intros Ht Hne. rewrite <- (string_app_nil_r t) at 1.
  rewrite getlines_app_no_delim by done.
  rewrite string_app_nil_l. by destruct t.
Qed.

Lemma getlines_of_concat (delim : ascii) (tokens : list string) :
  Forall (fun t => has_char delim t = false) tokens ->
  last tokens <> Some EmptyString ->
  getlines delim (String.concat (String delim EmptyString) tokens)
    EmptyString = tokens.
Proof.
  induction tokens as [|t tokens IH]; [done|].
  intros [Ht Hts]%Forall_cons Hlast.
  destruct tokens as [|t2 tokens].
  - cbn [String.concat]. apply getlines_token; [done|]. by intros ->.
  - change (String.concat (String delim EmptyString) (t :: t2 :: tokens))
      with (t +:+ String delim EmptyString +:+
            String.concat (String delim EmptyString) (t2 :: tokens)).
    rewrite getlines_app_no_delim by done.
    rewrite string_app_nil_l, string_app_cons, string_app_nil_l.
    cbn [getlines]. rewrite Ascii.eqb_refl. f_equal.
    apply IH; [done|]. by rewrite last_cons_cons in Hlast.
Qed.

(** X19: splitting undoes joining: the fields of a line that was written by
    joining fields with the delimiter are those fields, provided no field
    holds the delimiter and the last field is not empty (an empty last
    field is not read back). *)
Theorem getlines_concat (delim : ascii) (tokens : list string) :
  Forall (fun t => has_char delim t = false) tokens ->
  last tokens <> Some EmptyString ->
  getlines delim (String.concat (String delim EmptyString) tokens)
    EmptyString = tokens.
Proof. exact (getlines_of_concat delim tokens). Qed.

Lemma getlines_concat_witness :
  getlines "," (String.concat "," ["a"; ""; "b c"]%string) EmptyString
  = ["a"; ""; "b c"]%string.
Proof.
  apply (getlines_concat "," ["a"; ""; "b c"]%string).
  - repeat constructor.
  - discriminate.
Defined.

Lemma getlines_file_of_lines (lines : list string) :
  Forall (fun line => has_char "010" line = false) lines ->
  getlines "010" (file_of_lines lines) EmptyString = lines.
Proof.
  induction lines as [|line lines IH]; [done|].
  intros [Hl Hls]%Forall_cons. cbn [file_of_lines].
  rewrite getlines_app_no_delim by done.
  rewrite string_app_nil_l. unfold endl.
  rewrite string_app_cons, string_app_nil_l. cbn [getlines].
  rewrite Ascii.eqb_refl. f_equal. by apply IH.
Qed.

(** ** The loaders *)

Lemma has_char_app (c : ascii) (a b : string) :
  has_char c (a +:+ b) = has_char c a || has_char c b.
Proof.
  induction a as [|x a IH]; [done|].
  rewrite string_app_cons. cbn [has_char]. by rewrite IH, orb_assoc.
Qed.

Lemma has_char_concat (c sep : ascii) (tokens : list string) :
  Ascii.eqb sep c = false ->
  Forall (fun t => has_char c t = false) tokens ->
  has_char c (String.concat (String sep EmptyString) tokens) = false.
Proof.
  intros Hsep. induction tokens as [|t tokens IH]; [done|].
  intros [Ht Hts]%Forall_cons. destruct tokens as [|t2 tokens]; [done|].
  change (String.concat (String sep EmptyString) (t :: t2 :: tokens))
    with (t +:+ String sep EmptyString +:+
          String.concat (String sep EmptyString) (t2 :: tokens)).
  rewrite !has_char_app, Ht, IH by done. cbn [has_char]. by rewrite Hsep.
Qed.

Lemma tokens_of_student_record (s : Student.t) :
  Forall clean_field (student_fields s) ->
  tokens_of (student_record s) = student_fields s.
Proof.
  intros Hclean. unfold tokens_of, student_record.
  rewrite getlines_of_concat.
  - rewrite <- (map_id (student_fields s)) at 2.
    apply map_ext_in. intros f Hf%list_elem_of_In.
    rewrite Forall_forall in Hclean. apply trim_fixed_point, Hclean, Hf.
  - eapply Forall_impl; [exact Hclean|]. by intros f (_ & Hf & _).
  - unfold student_fields. simpl.
    by destruct (Student.grade_level s).
Qed.

Lemma student_new_fields (s : Student.t) (time : Z) :
  Student.courses s = [] ->
  Student.observable s = Observable.init ->
  Person.created_at (Student.person s) = time ->
  let fields := student_fields s in
  Student.new (nth 0 fields "") (nth 1 fields "") (nth 2 fields "")
    (mkAddress (nth 3 fields "") (nth 4 fields "") (nth 5 fields "")
       (nth 6 fields ""))
    (Student.grade_level s) time = s.
Proof.
  destruct s as [[id name email [st ci sa zi] created] g cs obs].
  simpl. by intros -> -> ->.
Qed.

Lemma read_student_lines_records (now : nat -> Z) (ss : list Student.t) :
  forall ss0,
  (forall k s, ss !! k = Some s -> fresh_student (now (length ss0 + k)%nat) s) ->
  read_student_lines now (map student_record ss) ss0 = ([], Ok (ss0 ++ ss)).
Proof.
  induction ss as [|s ss IH]; intros ss0 Hfresh.
  - simpl. by rewrite app_nil_r.
  - destruct (Hfresh 0%nat s eq_refl) as (Hc & Ho & Ht & Hclean).
    rewrite Nat.add_0_r in Ht.
    cbn [map read_student_lines].
    rewrite (tokens_of_student_record s Hclean).
    change (length (student_fields s)) with 8%nat.
    change (negb (8 =? 8)%nat) with false. cbn iota.
    change (nth 7 (student_fields s) "")
      with (gradeLevelToString (Student.grade_level s)).
    rewrite (proj1 grade_print_parse).
    rewrite (student_new_fields s _ Hc Ho Ht).
    rewrite IH.
    + by rewrite <- app_assoc.
    + intros k s' Hk. rewrite length_app. simpl.
      replace (length ss0 + 1 + k)%nat with (length ss0 + S k)%nat by lia.
      by apply Hfresh.
Qed.

(** X20: loading undoes writing: a file that lists students one per line, the
    eight fields joined by commas, loads to exactly these students, in the
    order of the file and without a diagnostic, provided that no field has
    white space at its ends, a comma or a newline. *)
Theorem readStudentsFromFile_records (fs : string -> option string)
    (now : nat -> Z) (filename : string) (ss : list Student.t) :
  fs filename = Some (file_of_lines (map student_record ss)) ->
  (forall k s, ss !! k = Some s -> fresh_student (now k) s) ->
  readStudentsFromFile fs now filename = ([], Ok ss).
Proof.
  intros Hfile Hfresh. unfold readStudentsFromFile. rewrite Hfile.
  rewrite getlines_file_of_lines.
  - by rewrite read_student_lines_records.
  - apply Forall_forall. intros line (s & -> & Hs)%list_elem_of_fmap.
    apply list_elem_of_lookup in Hs as [k Hk].
    destruct (Hfresh k s Hk) as (_ & _ & _ & Hclean).
    apply has_char_concat; [done|].
    eapply Forall_impl; [exact Hclean|]. by intros f (_ & _ & Hf).
Qed.

Lemma trimmed_of_trim_fixed (s : string) : trim s = s -> trimmed s.
Proof.
  intros E. destruct (trim_decomposition s) as (_ & _ & _ & _ & _ & H).
  by rewrite E in H.
Qed.

Lemma readStudentsFromFile_records_witness :
  readStudentsFromFile
    (one_file "students.txt"
       (file_of_lines (map student_record [loaded_S001; loaded_S003])))
    Z.of_nat "students.txt"
  = ([], Ok [loaded_S001; loaded_S003]).
Proof.
  apply readStudentsFromFile_records; [reflexivity|].
  intros k s Hk.
  assert (forall f, trim f = f -> has_char "," f = false ->
                    has_char "010" f = false -> clean_field f) as Hclean
    by (intros f H1 H2 H3; split; [by apply trimmed_of_trim_fixed|done]).
  destruct k as [|[|k]]; [| |done]; injection Hk as <-;
    (split; [reflexivity|]); (split; [reflexivity|]);
    (split; [reflexivity|]);
    repeat (constructor; [by apply Hclean|]); constructor.
Defined.

(** The lines of a file: every line of the file either adds one student
    or writes one diagnostic that quotes the line. When the load returns,
    the students and the diagnostics together are as many as the lines,
    and every student is as the constructor leaves it, with no course, no
    observer and fields without white space at their ends. *)
Lemma read_student_lines_account (now : nat -> Z) (lines : list string) :
  forall ss0 out ss,
  read_student_lines now lines ss0 = (out, Ok ss) ->
  exists new,
    ss = ss0 ++ new /\
    (length new + length out = length lines)%nat /\
    (forall o, o ∈ out ->
       exists line, line ∈ lines /\ length (tokens_of line) <> 8%nat /\
                    o = Cerr (invalid_student_record line)) /\
    (forall s, s ∈ new ->
       Student.courses s = [] /\
       Student.observable s = Observable.init /\
       Forall trimmed (take 7 (student_fields s))).
Proof.
  induction lines as [|line lines IH]; intros ss0 out ss Hread.
  - injection Hread as <- <-. exists []. rewrite app_nil_r.
    split; [done|]. split; [done|].
    split; intros ? Hin; by apply elem_of_nil in Hin.
  - cbn [read_student_lines] in Hread.
    destruct (Nat.eqb_spec (length (tokens_of line)) 8) as [Hlen|Hlen];
      cbn [negb] in Hread.
    + destruct (stringToGradeLevel (nth 7 (tokens_of line) "")) as [g|e];
        [|done].
      apply IH in Hread as (new & -> & Hcount & Hout & Hnew).
      eexists (_ :: new). rewrite <- app_assoc. split; [reflexivity|].
      split; [simpl; lia|]. split.
      * intros o Ho. destruct (Hout o Ho) as (l & Hl & Hrest).
        exists l. split; [by apply list_elem_of_further | done].
      * intros s [->|Hs]%elem_of_cons; [|by apply Hnew].
        split; [done|]. split; [done|].
        assert (forall i, trimmed (nth i (tokens_of line) "")) as Ht.
        { intros i. unfold tokens_of.
          destruct (nth_in_or_default i (map trim (getlines "," line ""))
                      ""%string) as [Hin| ->].
          - apply in_map_iff in Hin as (t & <- & _).
            by destruct (trim_decomposition t) as (_ & _ & _ & _ & _ & H).
          - split; [done|]. intros [|] ?; done. }
        simpl. repeat constructor; apply Ht.
    + destruct (read_student_lines now lines ss0) as [out' r] eqn:Hrest.
      injection Hread as <- ->.
      apply IH in Hrest as (new & -> & Hcount & Hout & Hnew).
      exists new. split; [done|]. split; [simpl; lia|]. split; [|done].
      intros o [->|Ho]%elem_of_cons.
      * exists line. split; [apply list_elem_of_here | done].
      * destruct (Hout o Ho) as (l & Hl & Hrest).
        exists l. split; [by apply list_elem_of_further | done].
Qed.

(** X21: when [readStudentsFromFile] returns a roster, every line of the
    file has given either one student or one diagnostic on [cerr] that
    quotes the line, and a diagnostic is written only for a line that does
    not have eight fields. Every student of the roster is as the
    constructor leaves it: no course, no observer, and the seven text
    fields without white space at their ends. *)
Theorem readStudentsFromFile_account (fs : string -> option string)
    (now : nat -> Z) (filename content : string) (out : list Output)
    (ss : list Student.t) :
  fs filename = Some content ->
  readStudentsFromFile fs now filename = (out, Ok ss) ->
  let lines := getlines "010" content EmptyString in
  (length ss + length out = length lines)%nat /\
  (forall o, o ∈ out ->
     exists line, line ∈ lines /\ length (tokens_of line) <> 8%nat /\
                  o = Cerr (invalid_student_record line)) /\
  (forall s, s ∈ ss ->
     Student.courses s = [] /\
     Student.observable s = Observable.init /\
     Forall trimmed (take 7 (student_fields s))).
Proof.
  intros Hfile Hread. unfold readStudentsFromFile in Hread.
  rewrite Hfile in Hread.
  apply read_student_lines_account in Hread as (new & -> & H1 & H2 & H3).
  done.
Qed.

Lemma readStudentsFromFile_account_witness :
  readStudentsFromFile (one_file "students.txt" students_txt) Z.of_nat
    "students.txt"
  = ([Cerr (invalid_student_record "S002, Bob")],
     Ok [loaded_S001; loaded_S003]) /\
  (2 + 1 = length (getlines "010" students_txt EmptyString))%nat.
Proof.
  assert (readStudentsFromFile (one_file "students.txt" students_txt)
            Z.of_nat "students.txt"
          = ([Cerr (invalid_student_record "S002, Bob")],
             Ok [loaded_S001; loaded_S003])) as Hread
    by (vm_compute; reflexivity).
  split; [exact Hread|].
  apply (readStudentsFromFile_account
           (one_file "students.txt" students_txt) Z.of_nat "students.txt"
           students_txt [Cerr (invalid_student_record "S002, Bob")]
           [loaded_S001; loaded_S003] eq_refl Hread).
Defined.






(** The load of teachers never throws once the file is open: each line
    gives one teacher, with no assigned course, or one diagnostic. The
    fields are taken as they are; a line with nine fields is a teacher
    whatever the fields say. *)
Lemma read_teacher_lines_account (now : nat -> Z) (lines : list string) :
  forall ts0,
  exists out new,
    read_teacher_lines now lines ts0 = (out, Ok (ts0 ++ new)) /\
    (length new + length out = length lines)%nat /\
    (forall x, x ∈ new -> Teacher.assigned_courses x = ∅) /\
    (forall o, o ∈ out ->
       exists line, line ∈ lines /\ length (tokens_of line) <> 9%nat /\
                    o = Cerr (invalid_teacher_record line)).
Proof.
  induction lines as [|line lines IH]; intros ts0.
  - exists [], []. rewrite app_nil_r.
    split; [done|]. split; [done|].
    split; intros ? Hin; by apply elem_of_nil in Hin.
  - cbn [read_teacher_lines].
    destruct (Nat.eqb_spec (length (tokens_of line)) 9) as [Hlen|Hlen];
      cbn [negb].
    + edestruct IH as (out & new & -> & Hcount & Hnew & Hout).
      eexists out, (_ :: new). rewrite <- app_assoc.
      split; [reflexivity|]. split; [simpl; lia|]. split.
      * intros x [->|Hx]%elem_of_cons; [done | by apply Hnew].
      * intros o Ho. destruct (Hout o Ho) as (l & Hl & Hrest).
        exists l. split; [by apply list_elem_of_further | done].
    + destruct (IH ts0) as (out & new & -> & Hcount & Hnew & Hout).
      eexists _, new. split; [reflexivity|]. split; [simpl; lia|].
      split; [done|].
      intros o [->|Ho]%elem_of_cons.
      * exists line. split; [apply list_elem_of_here | done].
      * destruct (Hout o Ho) as (l & Hl & Hrest).
        exists l. split; [by apply list_elem_of_further | done].
Qed.

(** X23: [readTeachersFromFile] never throws once the file is open. Every
    line gives either one teacher, with no assigned course, or one
    diagnostic on [cerr] that quotes the line, and a diagnostic is written
    only for a line that does not have nine fields. *)
Theorem readTeachersFromFile_account (fs : string -> option string)
    (now : nat -> Z) (filename content : string) :
  fs filename = Some content ->
  let lines := getlines "010" content EmptyString in
  exists out ts,
    readTeachersFromFile fs now filename = (out, Ok ts) /\
    (length ts + length out = length lines)%nat /\
    (forall x, x ∈ ts -> Teacher.assigned_courses x = ∅) /\
    (forall o, o ∈ out ->
       exists line, line ∈ lines /\ length (tokens_of line) <> 9%nat /\
                    o = Cerr (invalid_teacher_record line)).
Proof.
  intros Hfile. unfold readTeachersFromFile. rewrite Hfile.
  destruct (read_teacher_lines_account now
              (getlines "010" content EmptyString) [])
    as (out & new & Hread & H).
  by exists out, new.
Qed.

Lemma readTeachersFromFile_account_witness :
  exists out ts,
    readTeachersFromFile (one_file "teachers.txt" teachers_txt) Z.of_nat
      "teachers.txt" = (out, Ok ts) /\
    (length ts + length out = 2)%nat.
Proof.
  destruct (readTeachersFromFile_account
              (one_file "teachers.txt" teachers_txt) Z.of_nat
              "teachers.txt" teachers_txt eq_refl)
    as (out & ts & Hread & Hcount & _).
  by exists out, ts.
Defined.

(** ** School::simulateWAMUpdates *)

Lemma drawn_score_guard (wam : float) : drawn_score wam -> guard_passed wam.
Proof.
  unfold drawn_score, Float32.in_interval.
  intros [Hlo Hhi]%andb_true_iff.
  destruct (leb_not_nan _ _ Hlo) as [_ Hnan].
  rewrite leb_negb_ltb in Hlo, Hhi by done.
  apply negb_true_iff in Hlo, Hhi. split.
  - destruct (Float32.ltb wam (Float32.of_Z 0)) eqn:H; [|done].
    by rewrite (ltb_trans wam (Float32.of_Z 0) (Float32.of_Z 50) H eq_refl)
      in Hlo.
  - destruct (Float32.ltb (Float32.of_Z 100) wam) eqn:H; [|done].
    by rewrite (ltb_trans (Float32.of_Z 95) (Float32.of_Z 100) wam eq_refl H)
      in Hhi.
Qed.

Lemma keys_app {V : Type} (m1 m2 : StdMap.t V) :
  StdMap.keys (m1 ++ m2) = StdMap.keys m1 ++ StdMap.keys m2.
Proof. apply map_app. Qed.

Lemma assign_replace {V : Type} (key : string) (old v : V)
    (done todo : StdMap.t V) :
  ascending_keys (done ++ (key, old) :: todo) ->
  StdMap.find key (done ++ (key, old) :: todo) = Some old /\
  StdMap.assign key v (done ++ (key, old) :: todo)
    = done ++ (key, v) :: todo.
Proof.
  unfold ascending_keys, StdMap.keys.
  induction done as [|[k0 v0] done IH]; simpl; intros Hs.
  - by rewrite String.eqb_refl, string_compare_refl.
  - apply StronglySorted_inv in Hs as [Hs Hall].
    rewrite Forall_forall in Hall.
    assert (String.compare k0 key = Lt) as Hlt.
    { apply Hall. rewrite map_app. simpl. set_solver. }
    assert (String.compare key k0 = Gt) as ->
      by by rewrite String.compare_antisym, Hlt.
    destruct (String.eqb_spec key k0) as [->|_].
    { by rewrite string_compare_refl in Hlt. }
    destruct (IH Hs) as [-> ->]. done.
Qed.

Lemma scored_keys (draw : nat -> float) (k : nat)
    (m : StdMap.t (option float)) :
  StdMap.keys (scored draw k m) = StdMap.keys m.
Proof.
  revert k. induction m as [|[key slot] m IH]; intros k; simpl; [done|].
  by rewrite IH.
Qed.

Lemma scored_all (draw : nat -> float) (k : nat)
    (m : StdMap.t (option float)) :
  (forall i, drawn_score (draw i)) ->
  forall course_id slot, (course_id, slot) ∈ scored draw k m ->
    exists wam, slot = Some wam /\ drawn_score wam.
Proof.
  intros Hdraw. revert k. induction m as [|[key old] m IH]; intros k c slot;
    simpl.
  - by intros ?%elem_of_nil.
  - intros [[= -> ->]|Hin]%elem_of_cons; eauto.
Qed.

Section SimulationFacts.
Variable fixed1 : float -> string.
Variable draw : nat -> float.
Hypothesis Hdraw : forall i, drawn_score (draw i).

Lemma update_each_scored (todo : StdMap.t (option float)) :
  forall (done : StdMap.t (option float)) (s : Student.t) (k : nat),
  Student.courses s = done ++ todo ->
  ascending_keys (done ++ todo) ->
  let s' := fst (fst (School.update_each fixed1 draw (StdMap.keys todo) k s)) in
  Student.courses s' = done ++ scored draw k todo /\
  Student.person s' = Student.person s /\
  Student.grade_level s' = Student.grade_level s /\
  Student.observable s' = Student.observable s /\
  snd (School.update_each fixed1 draw (StdMap.keys todo) k s) = (k + length todo)%nat.
Proof.
  induction todo as [|[key old] todo IH]; intros done s k Hc Ha.
  - simpl. rewrite Nat.add_0_r. by rewrite Hc.
  - cbn [StdMap.keys map fst School.update_each].
    destruct (drawn_score_guard _ (Hdraw k)) as [G G'].
    rewrite updateWAM_accepted by (by rewrite G, G').
    rewrite Hc. destruct (assign_replace key old (Some (draw k)) done todo Ha)
      as [-> ->].
    set (s1 := Student.set_courses _ s).
    specialize (IH (done ++ [(key, Some (draw k))]) s1 (S k)).
    fold (StdMap.keys todo).
    destruct (School.update_each fixed1 draw (StdMap.keys todo) (S k) s1)
      as [[s2 out2] k2].
    simpl in IH |- *.
    destruct IH as (Hc2 & Hp & Hg & Ho & Hk).
    + by rewrite <- app_assoc.
    + rewrite <- app_assoc. simpl.
      unfold ascending_keys in *. by rewrite keys_app in *.
    + rewrite <- app_assoc in Hc2. simpl in Hc2.
      repeat split; try done. lia.
Qed.

Lemma simulate_loop_scores (students : list ptr) :
  forall (k : nat) (h : Heap),
  (forall p, p ∈ students -> is_Some (student_objs h !! p)) ->
  (forall p s, student_objs h !! p = Some s ->
     ascending_keys (Student.courses s)) ->
  exists h' out k',
    School.simulate_loop fixed1 draw students k h = Some (h', out, k') /\
    teacher_objs h' = teacher_objs h /\
    course_objs h' = course_objs h /\
    length (student_objs h') = length (student_objs h) /\
    forall p s', student_objs h' !! p = Some s' ->
      exists s, student_objs h !! p = Some s /\
        Student.person s' = Student.person s /\
        Student.grade_level s' = Student.grade_level s /\
        Student.observable s' = Student.observable s /\
        StdMap.keys (Student.courses s') = StdMap.keys (Student.courses s) /\
        (p ∈ students -> all_scored s') /\
        (p ∉ students -> s' = s).
Proof.
  induction students as [|p students IH]; intros k h Hwf Hasc.
  - exists h, [], k. repeat split; try done.
    intros p s' Hs'. exists s'. repeat split; try done.
    by intros ?%elem_of_nil.
  - cbn [School.simulate_loop].
    destruct (Hwf p) as [s Hs]; [apply list_elem_of_here|].
    rewrite Hs. cbn [mbind option_bind].
    pose proof (update_each_scored (Student.courses s) [] s k eq_refl
                  (Hasc p s Hs)) as Hup.
    destruct (School.update_each fixed1 draw (StdMap.keys (Student.courses s)) k s)
      as [[s1 out1] k1].
    simpl in Hup. destruct Hup as (Hc1 & Hp1 & Hg1 & Ho1 & _).
    assert (p < length (student_objs h))%nat as Hlt
      by by eapply lookup_lt_Some.
    destruct (IH k1 (set_student p s1 h)) as (h' & out' & k' & Hrun & Ht & Hcs
                                               & Hlen & Hall).
    + intros q Hq. simpl. destruct (decide (q = p)) as [->|Hne].
      * rewrite list_lookup_insert_eq; eauto.
      * rewrite list_lookup_insert_ne by done.
        apply Hwf. by apply list_elem_of_further.
    + intros q sq Hq. simpl in Hq. destruct (decide (q = p)) as [->|Hne].
      * rewrite list_lookup_insert_eq in Hq by done. injection Hq as <-.
        unfold ascending_keys. rewrite Hc1, scored_keys. by eapply Hasc.
      * rewrite list_lookup_insert_ne in Hq by done. by eapply Hasc.
    + rewrite Hrun. cbn [mbind option_bind].
      exists h', (out1 ++ out'), k'. split; [done|].
      split; [done|]. split; [done|].
      split; [by rewrite Hlen; simpl; rewrite length_insert|].
      intros q s' Hs'. destruct (Hall q s' Hs')
        as (sm & Hsm & Hpm & Hgm & Hom & Hkm & Hin & Hout).
      simpl in Hsm. destruct (decide (q = p)) as [->|Hne].
      * rewrite list_lookup_insert_eq in Hsm by done. injection Hsm as <-.
        exists s. split; [done|]. split; [congruence|].
        split; [congruence|]. split; [congruence|].
        split; [by rewrite Hkm, Hc1, scored_keys|].
        split; [|intros Hn; destruct Hn; apply list_elem_of_here].
        intros _. destruct (decide (p ∈ students)) as [Hp|Hp]; [by apply Hin|].
        rewrite (Hout Hp). intros c slot Hcs1. rewrite Hc1 in Hcs1.
        by eapply scored_all.
      * rewrite list_lookup_insert_ne in Hsm by done.
        exists sm. split; [done|]. repeat split; try done.
        -- intros [->|Hq]%elem_of_cons; [done | by apply Hin].
        -- intros Hq. apply Hout. intros Hq'. apply Hq.
           by apply list_elem_of_further.
Qed.
End SimulationFacts.

(** X24: when every draw lies between 50 and 95 and the enrollment maps are in
    ascending key order, [simulateWAMUpdates] returns, and afterwards every
    course of every registered student has a score between 50 and 95. The
    store has as many students as before and every student of the store
    before the call is still there: with the same key set, identity
    fields and observer list, and unchanged when it is not registered. No
    course and no teacher is changed. *)
Theorem simulateWAMUpdates_scores_all (fixed1 : float -> string)
    (draw : nat -> float) (sc : School.t) (h : Heap) :
  (forall i, drawn_score (draw i)) ->
  (forall p, p ∈ School.students sc -> is_Some (student_objs h !! p)) ->
  (forall p s, student_objs h !! p = Some s ->
     ascending_keys (Student.courses s)) ->
  exists h' out,
    School.simulateWAMUpdates fixed1 draw sc h = Some (h', out) /\
    teacher_objs h' = teacher_objs h /\
    course_objs h' = course_objs h /\
    length (student_objs h') = length (student_objs h) /\
    forall p s, student_objs h !! p = Some s ->
      exists s', student_objs h' !! p = Some s' /\
        Student.person s' = Student.person s /\
        Student.grade_level s' = Student.grade_level s /\
        Student.observable s' = Student.observable s /\
        StdMap.keys (Student.courses s') = StdMap.keys (Student.courses s) /\
        (p ∈ School.students sc -> all_scored s') /\
        (p ∉ School.students sc -> s' = s).
Proof.
  intros Hdraw Hwf Hasc.
  destruct (simulate_loop_scores fixed1 draw Hdraw (School.students sc) 0%nat
              h Hwf Hasc) as (h' & out & k' & Hrun & Ht & Hc & Hlen & Hall).
  unfold School.simulateWAMUpdates. rewrite Hrun. simpl.
  eexists _, _. split; [reflexivity|].
  split; [done|]. split; [done|]. split; [done|].
  intros p s Hs.
  destruct (lookup_lt_is_Some_2 (student_objs h') p) as [s' Hs'].
  { rewrite Hlen. by eapply lookup_lt_Some. }
  exists s'. split; [done|].
  destruct (Hall p s' Hs') as (s0 & Hs0 & H).
  assert (s0 = s) as -> by congruence. exact H.
Qed.

Lemma simulateWAMUpdates_scores_all_witness :
  exists h' out s',
    School.simulateWAMUpdates (fun _ => "60.0"%string)
      (fun _ => Float32.of_Z 60) (school world_happy) (heap world_happy)
    = Some (h', out) /\
    student_objs h' !! 0%nat = Some s' /\
    Student.courses s' = [("CS101"%string, Some (Float32.of_Z 60))].
Proof.
  destruct (simulateWAMUpdates_scores_all (fun _ => "60.0"%string)
              (fun _ => Float32.of_Z 60) (school world_happy)
              (heap world_happy)) as (h' & out & Hrun & _).
  - intros _. reflexivity.
  - intros p ->%list_elem_of_singleton. by eexists.
  - intros [|[|p]] s; simpl; [|done|done]. intros [= <-].
    repeat constructor.
  - vm_compute in Hrun. injection Hrun as <- <-.
    eexists _, _, _. split; [reflexivity|]. split; reflexivity.
Defined.

(** ** School::enrollStudentInCourse, continued *)

Lemma find_if_first {A : Type} (objs : list A) (pred : A -> bool)
    (v : list ptr) (p : ptr) :
  find_if objs pred v = Some (Some p) ->
  exists before after,
    v = before ++ p :: after /\
    forall q a, q ∈ before -> objs !! q = Some a -> pred a = false.
Proof.
  induction v as [|q v IH]; simpl; [done|].
  destruct (objs !! q) as [a|] eqn:Hq; simpl; [|done].
  destruct (pred a) eqn:Hp.
  - intros [= <-]. exists [], v. split; [done|]. by intros ? ? ?%elem_of_nil.
  - intros (before & after & -> & Hb)%IH.
    exists (q :: before), after. split; [done|].
    intros q' a' [->|Hin]%elem_of_cons Ha'; [congruence | eauto].
Qed.

(** X25: an id is resolved to the first registered object that carries it, and
    a call of [enrollStudentInCourse] changes no student and no course
    other than the two its ids are resolved to: a second registered object
    with the same id is never enrolled. *)
Theorem enroll_first_match_only (student_id course_id : string)
    (sc : School.t) (h h' : Heap) (b : bool) (out : list Output) :
  School.enrollStudentInCourse student_id course_id sc h = Some (b, h', out) ->
  (forall ps, resolve_student h sc student_id = Some (Some ps) ->
     exists before after,
       School.students sc = before ++ ps :: after /\
       forall q s, q ∈ before -> student_objs h !! q = Some s ->
                   Student.getId s <> student_id) /\
  (forall p, resolve_student h sc student_id <> Some (Some p) ->
     student_objs h' !! p = student_objs h !! p) /\
  (forall p, resolve_course h sc course_id <> Some (Some p) ->
     course_objs h' !! p = course_objs h !! p).
Proof.
  intros Hcall. split.
  - intros ps (before & after & Hv & Hb)%find_if_first.
    exists before, after. split; [done|]. intros q s Hq Hs.
    specialize (Hb q s Hq Hs). simpl in Hb. by apply String.eqb_neq.
  - apply enroll_cases in Hcall.
    destruct Hcall as [ | | ps pc s c s' c' out' Hrs Hrc _ _ _ _ _ _ _ _ _ _];
      try done.
    split; intros p Hp; simpl.
    + apply list_lookup_insert_ne. congruence.
    + apply list_lookup_insert_ne. congruence.
Qed.

Lemma enroll_first_match_only_witness :
  student_objs (heap world_duplicate_id) !! 1%nat
  = Some (Student.new "A" "Ada again" "" no_address SENIOR 1).
Proof.
  pose (h0 := mkHeap
    [Student.new "A" "Ada" "" no_address JUNIOR 0;
     Student.new "A" "Ada again" "" no_address SENIOR 1] []
    [Course.new "X" "Logic" 3 Course.default_capacity]).
  assert (School.enrollStudentInCourse "A" "X" (school world_duplicate_id)
            h0
          = Some (true, heap world_duplicate_id,
                  [Notify (mkScoreEvent "A" "X" None Float32.zero) []]))
    as Hcall by (vm_compute; reflexivity).
  destruct (enroll_first_match_only _ _ _ _ _ _ _ Hcall) as (_ & Hs & _).
  rewrite Hs; [reflexivity|]. vm_compute. discriminate.
Defined.

(** X26: [enrollStudentInCourse] returns [true] exactly when both ids resolve
    and the resolved course has fewer enrolled students than its capacity
    as a [size_t]. When it returns [true], the resolved course holds the
    student id and the resolved student has a slot for the course; when it
    returns [false], the store is unchanged and one diagnostic is
    written. *)
Theorem enroll_result (student_id course_id : string) (sc : School.t)
    (h h' : Heap) (b : bool) (out : list Output) :
  School.enrollStudentInCourse student_id course_id sc h = Some (b, h', out) ->
  (b = true <->
   exists ps pc c,
     resolve_student h sc student_id = Some (Some ps) /\
     resolve_course h sc course_id = Some (Some pc) /\
     course_objs h !! pc = Some c /\
     Z.of_nat (size (Course.enrolled_students c))
       < to_size_t (Course.capacity c)) /\
  (b = true ->
   exists ps pc s' c',
     resolve_student h sc student_id = Some (Some ps) /\
     resolve_course h sc course_id = Some (Some pc) /\
     student_objs h' !! ps = Some s' /\
     course_objs h' !! pc = Some c' /\
     student_id ∈ Course.enrolled_students c' /\
     course_id ∈ StdMap.keys (Student.courses s')) /\
  (b = false -> h' = h /\ exists msg, out = [Cerr msg]).
Proof.
  intros Hcall. pose proof (enroll_cases _ _ _ _ _ _ _ Hcall) as Heff.
  destruct Heff as [Hun|ps pc s c Hrs Hrc [_ Hs] [_ Hc] Hfull
                   |ps pc s c s' c' out' Hrs Hrc [_ Hs] [_ Hc] _ _ Hlt _
                      Hkeys _ _ Henr].
  - split; [|split; [done|eauto]]. split; [done|].
    intros (ps & pc & c & Hrs & Hrc & _).
    apply resolve_student_id in Hrs as (s & Hsat & Hsid).
    apply resolve_course_id in Hrc as (c0 & Hcat & Hcid).
    destruct Hun as [Hun|Hun]; [by destruct (Hun _ _ Hsat)
                               | by destruct (Hun _ _ Hcat)].
  - split; [|split; [done|eauto]]. split; [done|].
    intros (ps' & pc' & c' & Hrs' & Hrc' & Hc' & Hlt).
    assert (pc' = pc) as -> by congruence.
    assert (c' = c) as -> by congruence. lia.
  - split; [|split; [|done]].
    + split; [|done]. intros _. by exists ps, pc, c.
    + intros _. exists ps, pc, s', c'.
      split; [done|]. split; [done|]. simpl.
      rewrite !list_lookup_insert_eq by by eapply lookup_lt_Some.
      split; [done|]. split; [done|].
      split; [rewrite Henr; set_solver|]. apply Hkeys. by left.
Qed.

Lemma enroll_result_witness :
  heap_A_in_X = heap_A_in_X /\
  exists msg, [Cerr (School.full_message "X")] = [Cerr msg].
Proof.
  assert (School.enrollStudentInCourse "B" "X" school_two_one heap_A_in_X
          = Some (false, heap_A_in_X, [Cerr (School.full_message "X")]))
    as Hcall by (vm_compute; reflexivity).
  by apply (proj2 (proj2 (enroll_result _ _ _ _ _ _ _ Hcall))).
Defined.
